(** * deoplete-clang2: flag resolution, compiler invocation and result reuse

    A shallow embedding of [rplugin/python3/deoplete/sources/deoplete_clang2.py].

    Python [str] values are modelled as [string]; a character is a code
    point below 256.  The operating system, the [clang] executable and the
    Python libraries that reach outside the process ([os.environ],
    [shlex], [json], [hashlib], [glob]) are the fields of a [Host] record;
    the pure parts of [os.path] and of [re] that the plugin relies on are
    written out. *)

From Stdlib Require Import String Ascii List ZArith Lia Bool Arith DecimalString.
From stdpp Require Import gmap strings.
Import ListNotations.
Local Open Scope string_scope.
Local Open Scope list_scope.

(** ** Python [str] operations *)

Module Str.

(** [s.startswith(p)] *)
Definition startswith (p s : string) : bool := String.prefix p s.

(** [sub in s] *)
Fixpoint contains (sub s : string) : bool :=
  String.prefix sub s ||
  match s with
  | EmptyString => false
  | String _ s' => contains sub s'
  end.

(** [s.endswith(p)] *)
Fixpoint endswith (p s : string) : bool :=
  String.eqb p s ||
  match s with
  | EmptyString => false
  | String _ s' => endswith p s'
  end.

(** [s.replace(c, new)] for a one-character [c] *)
Fixpoint replace_chr (c : ascii) (new s : string) : string :=
  match s with
  | EmptyString => EmptyString
  | String a s' =>
      if Ascii.eqb a c then new +:+ replace_chr c new s'
      else String a (replace_chr c new s')
  end.

(** [s.split(c)] for a one-character separator: never the empty list. *)
Fixpoint split_chr (c : ascii) (s : string) : list string :=
  match s with
  | EmptyString => [EmptyString]
  | String a s' =>
      if Ascii.eqb a c then EmptyString :: split_chr c s'
      else match split_chr c s' with
           | w :: ws => String a w :: ws
           | [] => [String a EmptyString]
           end
  end.

(** [sep.join(l)] *)
Definition join (sep : string) (l : list string) : string :=
  String.concat sep l.

(** [str.isspace] on one code point below 256 (also the class [\s] of
    [re] on [str] patterns). *)
Definition isspace (c : ascii) : bool :=
  let n := nat_of_ascii c in
  (Nat.leb 9 n && Nat.leb n 13) || (Nat.leb 28 n && Nat.leb n 32)
  || Nat.eqb n 133 || Nat.eqb n 160.

(** [s.lstrip()] *)
Fixpoint lstrip (s : string) : string :=
  match s with
  | EmptyString => EmptyString
  | String a s' => if isspace a then lstrip s' else s
  end.

(** [s.rstrip()] *)
Fixpoint rstrip (s : string) : string :=
  match s with
  | EmptyString => EmptyString
  | String a s' =>
      match rstrip s' with
      | EmptyString => if isspace a then EmptyString else String a EmptyString
      | r => String a r
      end
  end.

(** [s.strip()] *)
Definition strip (s : string) : string := rstrip (lstrip s).

(** [s[n:]] for [0 <= n] *)
Fixpoint drop (n : nat) (s : string) : string :=
  match n, s with
  | 0, _ => s
  | S _, EmptyString => EmptyString
  | S n', String _ s' => drop n' s'
  end.

(** [s[:n]] for [0 <= n] *)
Fixpoint take (n : nat) (s : string) : string :=
  match n, s with
  | 0, _ => EmptyString
  | S _, EmptyString => EmptyString
  | S n', String a s' => String a (take n' s')
  end.

(** [s.rfind(c) + 1] for a one-character [c]: the index just after the
    last occurrence, [0] when there is none. *)
Fixpoint after_last (c : ascii) (s : string) : nat :=
  match s with
  | EmptyString => 0
  | String a s' =>
      match after_last c s' with
      | 0 => if Ascii.eqb a c then 1 else 0
      | S i => S (S i)
      end
  end.

(** [s.rstrip(c)] for a one-character [c] *)
Fixpoint rstrip_chr (c : ascii) (s : string) : string :=
  match s with
  | EmptyString => EmptyString
  | String a s' =>
      match rstrip_chr c s' with
      | EmptyString => if Ascii.eqb a c then EmptyString else String a EmptyString
      | r => String a r
      end
  end.

(** [s == c * len(s)] *)
Fixpoint all_chr (c : ascii) (s : string) : bool :=
  match s with
  | EmptyString => true
  | String a s' => Ascii.eqb a c && all_chr c s'
  end.

(** [x in l] for a list of strings *)
Definition mem (x : string) (l : list string) : bool :=
  existsb (String.eqb x) l.

End Str.

(** ** The fragment of [re] the plugin uses

    A backtracking matcher with Python's priorities: alternatives left to
    right, a greedy star tries one more iteration first, a lazy star tries
    to stop first.  The continuation receives the rest of the subject and
    the groups captured so far. *)

Module Re.

Inductive regex : Type :=
| Eps
| Chr (c : ascii)
| Cls (p : ascii -> bool)
| Cat (r1 r2 : regex)
| Alt (r1 r2 : regex)
| Star (r : regex)
| StarLazy (r : regex)
| Grp (n : nat) (r : regex)
| Eol.

(** the most recent capture of a group comes first *)
Definition caps : Type := list (nat * string).

Definition group (n : nat) (c : caps) : option string :=
  match find (fun p => Nat.eqb (fst p) n) c with
  | Some p => Some (snd p)
  | None => None
  end.

(** the text between a subject [s] and its suffix [rest] *)
Definition consumed (s rest : string) : string :=
  Str.take (String.length s - String.length rest) s.

(** An iteration of a star that consumes nothing ends the loop; every
    starred expression of the plugin consumes a character. *)
Fixpoint run {R : Type} (r : regex) (s : string) (c : caps)
    (k : string -> caps -> option R) {struct r} : option R :=
  match r with
  | Eps => k s c
  | Chr a =>
      match s with
      | String b s' => if Ascii.eqb a b then k s' c else None
      | EmptyString => None
      end
  | Cls p =>
      match s with
      | String b s' => if p b then k s' c else None
      | EmptyString => None
      end
  | Cat r1 r2 => run r1 s c (fun s' c' => run r2 s' c' k)
  | Alt r1 r2 =>
      match run r1 s c k with
      | Some x => Some x
      | None => run r2 s c k
      end
  | Star r1 =>
      (fix loop (fuel : nat) (s : string) (c : caps) {struct fuel} : option R :=
         match fuel with
         | 0 => k s c
         | S fuel' =>
             match run r1 s c
                     (fun s' c' =>
                        if Nat.ltb (String.length s') (String.length s)
                        then loop fuel' s' c' else None) with
             | Some x => Some x
             | None => k s c
             end
         end) (String.length s) s c
  | StarLazy r1 =>
      (fix loop (fuel : nat) (s : string) (c : caps) {struct fuel} : option R :=
         match k s c with
         | Some x => Some x
         | None =>
             match fuel with
             | 0 => None
             | S fuel' =>
                 run r1 s c
                   (fun s' c' =>
                      if Nat.ltb (String.length s') (String.length s)
                      then loop fuel' s' c' else None)
             end
         end) (String.length s) s c
  | Grp n r1 => run r1 s c (fun s' c' => k s' ((n, consumed s s') :: c'))
  | Eol =>
      match s with
      | EmptyString => k s c
      | String b EmptyString => if Ascii.eqb b "010" then k s c else None
      | _ => None
      end
  end.

(** [r+] *)
Definition Plus (r : regex) : regex := Cat r (Star r).

(** a literal string *)
Fixpoint Lit (s : string) : regex :=
  match s with
  | EmptyString => Eps
  | String a EmptyString => Chr a
  | String a s' => Cat (Chr a) (Lit s')
  end.

(** [a1|a2|...|an] *)
Fixpoint Alts (l : list regex) : regex :=
  match l with
  | [] => Cls (fun _ => false)
  | [r] => r
  | r :: l' => Alt r (Alts l')
  end.

(** [\s] and [\S] *)
Definition space : regex := Cls Str.isspace.
Definition nonspace : regex := Cls (fun a => negb (Str.isspace a)).

(** a match anchored at the start of [s]: the rest of the subject and
    the groups, group 0 being the whole match *)
Definition match_at (r : regex) (s : string) : option (string * caps) :=
  run (Grp 0 r) s [] (fun s' c => Some (s', c)).

(** [re.match(r, s)]: the groups, or [None] *)
Definition rmatch (r : regex) (s : string) : option caps :=
  match match_at r s with
  | Some (_, c) => Some c
  | None => None
  end.

(** [re.search(r, s)]: the leftmost start at which [r] matches *)
Fixpoint search (r : regex) (s : string) : option caps :=
  match match_at r s with
  | Some (_, c) => Some c
  | None =>
      match s with
      | EmptyString => None
      | String _ s' => search r s'
      end
  end.

(** [re.finditer(r, s)]: the non-overlapping matches from left to right.
    [skip] counts the characters still covered by the previous match. *)
Fixpoint finditer_from (r : regex) (skip : nat) (s : string) : list caps :=
  match skip with
  | S skip' =>
      match s with
      | EmptyString => []
      | String _ s' => finditer_from r skip' s'
      end
  | 0 =>
      match match_at r s with
      | Some (rest, c) =>
          c :: match s with
               | EmptyString => []
               | String _ s' =>
                   finditer_from r
                     (String.length s - String.length rest - 1) s'
               end
      | None =>
          match s with
          | EmptyString => []
          | String _ s' => finditer_from r 0 s'
          end
      end
  end.

Definition finditer (r : regex) (s : string) : list caps :=
  finditer_from r 0 s.

(** [m.group(n)] of a group that took part in the match *)
Definition grp (n : nat) (c : caps) : string :=
  match group n c with
  | Some s => s
  | None => EmptyString
  end.

End Re.

(** ** The pure part of [os.path] (POSIX flavour) *)

Module Posixpath.

Definition sep : ascii := "/"%char.

(** [os.path.join(a, b)] *)
Definition join (a b : string) : string :=
  if Str.startswith "/" b then b
  else if String.eqb a EmptyString || Str.endswith "/" a then a +:+ b
  else a +:+ "/" +:+ b.

(** [os.path.dirname(p)] *)
Definition dirname (p : string) : string :=
  let head := Str.take (Str.after_last sep p) p in
  if negb (String.eqb head EmptyString) && negb (Str.all_chr sep head)
  then Str.rstrip_chr sep head
  else head.

(** [os.path.basename(p)] *)
Definition basename (p : string) : string :=
  Str.drop (Str.after_last sep p) p.

(** [os.path.splitext(p)[0]]: the extension starts at the last dot of
    the last component, unless only dots precede it there. *)
Definition splitext_root (p : string) : string :=
  let sep1 := Str.after_last sep p in
  let dot1 := Str.after_last "."%char p in
  if Nat.ltb sep1 dot1 then
    if Str.all_chr "."%char (Str.take (dot1 - 1 - sep1) (Str.drop sep1 p))
    then p
    else Str.take (dot1 - 1) p
  else p.

(** the loop of [normpath] over the components, [new_comps] reversed *)
Fixpoint norm_comps (initial_slashes : nat) (comps rev_new : list string)
    : list string :=
  match comps with
  | [] => rev rev_new
  | comp :: rest =>
      if String.eqb comp EmptyString || String.eqb comp "." then
        norm_comps initial_slashes rest rev_new
      else if negb (String.eqb comp "..")
              || (Nat.eqb initial_slashes 0 && match rev_new with [] => true | _ => false end)
              || match rev_new with c :: _ => String.eqb c ".." | [] => false end
      then norm_comps initial_slashes rest (comp :: rev_new)
      else match rev_new with
           | _ :: rn => norm_comps initial_slashes rest rn
           | [] => norm_comps initial_slashes rest rev_new
           end
  end.

(** [os.path.normpath(path)] *)
Definition normpath (path : string) : string :=
  if String.eqb path EmptyString then "."
  else
    let initial_slashes :=
      if Str.startswith "/" path then
        if Str.startswith "//" path && negb (Str.startswith "///" path)
        then 2 else 1
      else 0 in
    let comps := norm_comps initial_slashes (Str.split_chr sep path) [] in
    let body := Str.join "/" comps in
    let res :=
      match initial_slashes with
      | 0 => body
      | 1 => "/" +:+ body
      | _ => "//" +:+ body
      end in
    if String.eqb res EmptyString then "." else res.

End Posixpath.

(** the [k]-th ancestor of a directory, itself being the 0-th *)
Definition ancestor (k : nat) (p : string) : string :=
  Nat.iter k Posixpath.dirname p.

(** ** Module-level constants of the plugin *)

Import Re.

Definition repo_dirs : list string := [".git"; ".hg"; ".svn"].

(** The pattern text opens with a double-quote character: the literal is
    written with four quotes, of which three open the string. *)
Definition dquote : ascii := ascii_of_nat 34.

Definition flag_pattern : regex :=
  Alt (Cat (Chr dquote) (Lit "-resource-dir"))
      (Cat (StarLazy
              (Cat (Chr "-")
                   (Alts [Lit "internal"; Lit "externc"; Lit "c"; Lit "cxx";
                          Lit "objc"])))
           (Cat (Lit "-i")
                (Alts [Cat (Lit "nclude-")
                           (Cat (Chr "p")
                                (Cat (Cls (fun a => Ascii.eqb a "c" || Ascii.eqb a "t"))
                                     (Chr "h")));
                       Lit "quote"; Lit "prefix"; Lit "sysroot"; Lit "system";
                       Lit "framework"; Lit "dirafter"; Lit "macros";
                       Lit "withprefix"; Lit "withprefixbefore";
                       Lit "withsysroot"]))).

(** [-[IDF]] *)
Definition idf : regex :=
  Cat (Chr "-")
      (Cls (fun a => Ascii.eqb a "I" || Ascii.eqb a "D" || Ascii.eqb a "F")).

(** [(-[IDF]|flag_pattern)], the test of [clean_flags] *)
Definition path_flag : regex := Grp 1 (Alt idf flag_pattern).

(** [(flag_pattern)\s*(\S+)], the scan of [get_clang_flags] *)
Definition clang_flag_scan : regex :=
  Cat (Grp 1 flag_pattern) (Cat (Star space) (Grp 2 (Plus nonspace))).

(** [(-[IDF]|flag_pattern)\s*(\S+)], the scan of [find_db_flags] *)
Definition db_flag_scan : regex :=
  Cat (Grp 1 (Alt idf flag_pattern))
      (Cat (Star space) (Grp 2 (Plus nonspace))).

(** [unknown argument: '([^']+)'] *)
Definition unknown_argument : regex :=
  Cat (Lit "unknown argument: '")
      (Cat (Grp 1 (Plus (Cls (fun a => negb (Ascii.eqb a "'")))))
           (Chr "'")).

(** the patterns [get_complete_position] stores as [clang2_pattern]:
    [(?:->|\.)] and, for Objective-C, [(?:->|\.|[:@\[]|(?:\S\s+))] *)
Definition clang2_pattern_c : regex := Alt (Lit "->") (Chr ".").

Definition clang2_pattern_objc : regex :=
  Alts [Lit "->"; Chr ".";
        Cls (fun a => Ascii.eqb a ":" || Ascii.eqb a "@" || Ascii.eqb a "[");
        Cat nonspace (Plus space)].

(** [(?:\s+|(?:[\[\(:])\s*|@)$] *)
Definition scope_pos_pattern : regex :=
  Cat (Alts [Plus space;
             Cat (Cls (fun a => Ascii.eqb a "[" || Ascii.eqb a "(" || Ascii.eqb a ":"))
                 (Star space);
             Chr "@"])
      Eol.

Definition std_default (filetype : string) : option string :=
  if String.eqb filetype "c" then Some "c11"
  else if String.eqb filetype "cpp" then Some "c++1z"
  else if String.eqb filetype "objc" then Some "c11"
  else if String.eqb filetype "objcpp" then Some "c++1z"
  else None.

Definition lang_names (filetype : string) : option string :=
  if String.eqb filetype "c" then Some "c"
  else if String.eqb filetype "cpp" then Some "c++"
  else if String.eqb filetype "objc" then Some "objective-c"
  else if String.eqb filetype "objcpp" then Some "objective-c++"
  else None.

(** [darwin_versions.get(v)]: the SDK name and the numeric version *)
Definition darwin_versions (v : string) : option (string * Z) :=
  let table :=
    [("10.1", ("10.1.5", 1010%Z)); ("10.1.5", ("10.1.5", 1010%Z));
     ("10.2", ("10.2.8", 1020%Z)); ("10.2.8", ("10.2.8", 1020%Z));
     ("10.3", ("10.3.9", 1030%Z)); ("10.3.0", ("10.3.0", 1030%Z));
     ("10.3.9", ("10.3.9", 1030%Z)); ("10.4", ("10.4u", 1040%Z));
     ("10.5", ("10.5", 1050%Z)); ("10.6", ("10.6", 1060%Z));
     ("10.7", ("10.7", 1070%Z)); ("10.8", ("10.8", 1080%Z));
     ("10.9", ("10.9", 1090%Z)); ("10.10", ("10.10", 100000%Z));
     ("10.11", ("10.11", 101100%Z))] in
  match find (fun p => String.eqb (fst p) v) table with
  | Some p => Some (snd p)
  | None => None
  end.

(** ** Further string and [re] helpers used by [parse_completion] *)

Module StrMore.

(** [s.split(sep, 1)] when [sep in s]: the text before and after the
    first occurrence of [sep] *)
Fixpoint split_first (sep s : string) : option (string * string) :=
  if String.prefix sep s then Some (EmptyString, Str.drop (String.length sep) s)
  else match s with
       | EmptyString => None
       | String a s' =>
           match split_first sep s' with
           | Some (l, r) => Some (String a l, r)
           | None => None
           end
       end.

(** [s.find(sub)], [None] standing for [-1] *)
Definition find (sub s : string) : option nat :=
  match split_first sub s with
  | Some (l, _) => Some (String.length l)
  | None => None
  end.

(** [re.sub(r, repl, s)] for an [r] that matches no empty string *)
Fixpoint sub_from (r : regex) (repl : caps -> string) (skip : nat)
    (s : string) : string :=
  match skip with
  | S skip' =>
      match s with
      | EmptyString => EmptyString
      | String _ s' => sub_from r repl skip' s'
      end
  | 0 =>
      match match_at r s with
      | Some (rest, c) =>
          repl c +:+
          match s with
          | EmptyString => EmptyString
          | String _ s' =>
              sub_from r repl (String.length s - String.length rest - 1) s'
          end
      | None =>
          match s with
          | EmptyString => EmptyString
          | String a s' => String a (sub_from r repl 0 s')
          end
      end
  end.

Definition sub (r : regex) (repl : caps -> string) (s : string) : string :=
  sub_from r repl 0 s.

(** ['%d' % z] *)
Definition fmt_d (z : Z) : string :=
  DecimalString.NilZero.string_of_int (Z.to_int z).

End StrMore.

(** ** Data of the plugin *)

(** a completion item as [parse_completion] builds it *)
Record Completion : Type := {
  word : string;
  abbr : string;
  kind : string;
  info : string;
  icase : Z;
  dup : Z
}.

(** [self.last]: the empty dict or the four keys written together *)
Record Last : Type := {
  last_input : string;
  last_line : Z;
  last_col : Z;
  last_completions : list Completion
}.

(** [self.db_files[cwd]] *)
Record DbFile : Type := {
  db_file : string;
  entries : gmap string (list string)
}.

(** the mutable attributes of [Source] *)
Record Source : Type := {
  bad_flags : list string;
  clang_flags : gmap string (list string);
  db_files : gmap string DbFile;
  last : option Last;
  scope_completions : list Completion;
  user_flags : gmap string (option string);
  darwin_version : option (string * Z)
}.

(** [Source.__init__] *)
Definition init_source : Source :=
  {| bad_flags := []; clang_flags := ∅; db_files := ∅; last := None;
     scope_completions := []; user_flags := ∅; darwin_version := None |}.

(** a flags argument of [clean_flags]: a string to tokenize or tokens *)
Inductive flags_arg : Type :=
| FStr (s : string)
| FList (l : list string).

(** the keys of deoplete's [context] that the plugin reads *)
Record Context : Type := {
  input : string;
  filetype : string;
  complete_str : string;
  complete_position : Z;
  line : Z;
  cwd : string;
  bufname : string;
  clang2_pattern : option regex;
  event : string;
  auto_complete_start_length : option Z;
  var_flags : option flags_arg;
  var_std : string -> option string
}.

(** one record of [compile_commands.json] *)
Record DbEntry : Type := {
  e_directory : option string;
  e_file : option string;
  e_command : option string
}.

(** what [os.walk] traverses from a directory: its name, its files and
    its subdirectories, in the order scanned *)
#[local] Unset Elimination Schemes.
Inductive dirtree : Type :=
| Dir (name : string) (files : list string) (subdirs : list dirtree).
#[local] Set Elimination Schemes.

(** ** The host: operating system, compiler, libraries, editor

    [W] is the state of the world outside the process. *)

Record Host (W : Type) : Type := {
  (** [os.path.expanduser('~')] and [os.path.expandvars] *)
  home : string;
  expandvars : string -> string;
  (** [tempfile.gettempdir()] and the platform's SDK directories *)
  tempdir : string;
  darwin_sdk_paths : list string;
  (** [shlex.split(s, comments=True, posix=True)], [None] on [ValueError] *)
  shlex_split : string -> option (list string);
  (** [json.load] of a build database, [None] when it raises *)
  json_load : string -> option (list DbEntry);
  (** [hashlib.sha1(data).hexdigest()] *)
  sha1_hexdigest : string -> string;
  (** the file system *)
  isfile : W -> string -> bool;
  isdir : W -> string -> bool;
  path_exists : W -> string -> bool;
  getmtime : W -> string -> Z;
  listdir : W -> string -> option (list string);
  read_text : W -> string -> option string;
  glob : W -> string -> list string;
  walk : W -> string -> dirtree;
  makedirs : W -> string -> W;
  (** [subprocess.Popen(cmd).communicate(stdin)] for a process that can
      be started and prints text: the world afterwards, the decoded
      standard output and the decoded error stream.  The exceptions of a
      program that cannot be started, or of output that does not decode,
      are not modelled: what is proved of [call_clang] and its callers is
      proved of runs that answer. *)
  popen : W -> list string -> string -> W * (string * string);
  (** the SDK download lock is free; starting the download thread *)
  download_idle : W -> bool;
  start_download : W -> string -> W;
  (** [nvim.current.buffer[:]] *)
  buffer : W -> list string
}.

Arguments home {W}.
Arguments expandvars {W}.
Arguments tempdir {W}.
Arguments darwin_sdk_paths {W}.
Arguments shlex_split {W}.
Arguments json_load {W}.
Arguments sha1_hexdigest {W}.
Arguments isfile {W}.
Arguments isdir {W}.
Arguments path_exists {W}.
Arguments getmtime {W}.
Arguments listdir {W}.
Arguments read_text {W}.
Arguments glob {W}.
Arguments walk {W}.
Arguments makedirs {W}.
Arguments popen {W}.
Arguments download_idle {W}.
Arguments start_download {W}.
Arguments buffer {W}.

(** ** State and exceptions *)

Inductive exn : Type := OSError | ValueError | TypeError.

Inductive res (A : Type) : Type :=
| Ok (a : A)
| Raise (e : exn).
Arguments Ok {A}.
Arguments Raise {A}.

(** the plugin instance, the world, and every command line handed to
    [Popen] so far (most recent last) *)
Record St (W : Type) : Type := {
  self : Source;
  world : W;
  spawned : list (list string)
}.
Arguments self {W}.
Arguments world {W}.
Arguments spawned {W}.
Arguments Build_St {W}.

Definition M (W A : Type) : Type := St W -> res A * St W.

Definition ret {W A} (a : A) : M W A := fun st => (Ok a, st).

Definition raise {W A} (e : exn) : M W A := fun st => (Raise e, st).

Definition bind {W A B} (m : M W A) (k : A -> M W B) : M W B :=
  fun st =>
    match m st with
    | (Ok a, st') => k a st'
    | (Raise e, st') => (Raise e, st')
    end.

Declare Scope monad_scope.
Delimit Scope monad_scope with monad.
Notation "x <- c1 ;; c2" := (bind c1 (fun x => c2))
  (at level 100, c1 at next level, right associativity) : monad_scope.
Notation "c1 ;;; c2" := (bind c1 (fun _ => c2))
  (at level 100, right associativity) : monad_scope.

(** reading and updating [self] *)
Definition gets {W A} (f : Source -> A) : M W A :=
  fun st => (Ok (f (self st)), st).

Definition modify {W} (f : Source -> Source) : M W unit :=
  fun st => (Ok tt, Build_St (f (self st)) (world st) (spawned st)).

(** reading and changing the world *)
Definition ask {W A} (f : W -> A) : M W A :=
  fun st => (Ok (f (world st)), st).

Definition act {W} (f : W -> W) : M W unit :=
  fun st => (Ok tt, Build_St (self st) (f (world st)) (spawned st)).

Definition set_bad_flags (v : list string) (s : Source) : Source :=
  {| bad_flags := v; clang_flags := clang_flags s; db_files := db_files s;
     last := last s; scope_completions := scope_completions s;
     user_flags := user_flags s; darwin_version := darwin_version s |}.

Definition set_clang_flags (v : gmap string (list string)) (s : Source) : Source :=
  {| bad_flags := bad_flags s; clang_flags := v; db_files := db_files s;
     last := last s; scope_completions := scope_completions s;
     user_flags := user_flags s; darwin_version := darwin_version s |}.

Definition set_db_files (v : gmap string DbFile) (s : Source) : Source :=
  {| bad_flags := bad_flags s; clang_flags := clang_flags s; db_files := v;
     last := last s; scope_completions := scope_completions s;
     user_flags := user_flags s; darwin_version := darwin_version s |}.

Definition set_last (v : option Last) (s : Source) : Source :=
  {| bad_flags := bad_flags s; clang_flags := clang_flags s;
     db_files := db_files s; last := v;
     scope_completions := scope_completions s;
     user_flags := user_flags s; darwin_version := darwin_version s |}.

Definition set_scope_completions (v : list Completion) (s : Source) : Source :=
  {| bad_flags := bad_flags s; clang_flags := clang_flags s;
     db_files := db_files s; last := last s; scope_completions := v;
     user_flags := user_flags s; darwin_version := darwin_version s |}.

Definition set_user_flags (v : gmap string (option string)) (s : Source) : Source :=
  {| bad_flags := bad_flags s; clang_flags := clang_flags s;
     db_files := db_files s; last := last s;
     scope_completions := scope_completions s;
     user_flags := v; darwin_version := darwin_version s |}.

Definition set_darwin_version (v : option (string * Z)) (s : Source) : Source :=
  {| bad_flags := bad_flags s; clang_flags := clang_flags s;
     db_files := db_files s; last := last s;
     scope_completions := scope_completions s;
     user_flags := user_flags s; darwin_version := v |}.

(** ** Notions for the statements below *)

(** a computation that runs no process *)
Definition quiet {W A} (m : M W A) : Prop :=
  forall st, spawned (snd (m st)) = spawned st.

(** a state after [self.darwin_version = 0], the first statement of
    [gather_candidates] *)
Definition entered {W} (st : St W) : St W :=
  Build_St (set_darwin_version None (self st)) (world st) (spawned st).

(** what [self.last] holds after a request that ran to its end *)
Definition recorded (ctx : Context) (cs : list Completion) : option Last :=
  Some {| last_input := input ctx; last_line := line ctx;
          last_col := complete_position ctx; last_completions := cs |}.

(** ** The methods of [Source] *)

Definition newline : string := String "010"%char EmptyString.

(** [Source.parse_completion] *)
Definition strip_type (comp : string) : string * string :=
  if Str.startswith "[#" comp then
    match StrMore.find "#]" comp with
    | Some i => (Str.take (i - 2) (Str.drop 2 comp), Str.drop (i + 2) comp)
    | None => (EmptyString, comp)
    end
  else (EmptyString, comp).

Definition unplaceholder (comp : string) : string :=
  StrMore.sub
    (Cat (Lit "<#")
         (Cat (Grp 1 (Plus (Cls (fun a => negb (Ascii.eqb a "#"))))) (Lit "#>")))
    (grp 1) comp.

Definition parse_completion (item : string) : Completion :=
  let '(name, comp) :=
    if Str.contains " : " item then
      match StrMore.split_first " : " item with
      | Some p => p
      | None => (item, item)
      end
    else (item, item) in
  if String.eqb name "Pattern" then
    let '(ctype, comp) := strip_type comp in
    let comp :=
      StrMore.sub (Cat (Grp 1 nonspace) (Chr "("))
        (fun c => grp 1 c +:+ " (")
        (StrMore.sub (Cat (Chr ")") (Grp 1 nonspace))
           (fun c => ") " +:+ grp 1 c) comp) in
    {| word := comp; abbr := comp; kind := ctype;
       info := unplaceholder comp; icase := 1; dup := 1 |}
  else
    let '(ctype, comp) := strip_type comp in
    let info :=
      if Str.endswith ")" comp then unplaceholder comp else EmptyString in
    let info :=
      if negb (String.eqb ctype EmptyString)
      then "(" +:+ ctype +:+ ")" +:+ info else info in
    {| word := comp; abbr := name; kind := ctype;
       info := info; icase := 1; dup := 1 |}.

(** the loop of [find_file] over [os.walk(path)]: directories named in
    [repo_dirs] are pruned, the first file called [filename] wins *)
Fixpoint find_in_tree (root : string) (t : dirtree) (filename : string)
    : option string :=
  match t with
  | Dir _ files subdirs =>
      if Str.mem filename files then Some (Posixpath.join root filename)
      else
        (fix over (ds : list dirtree) : option string :=
           match ds with
           | [] => None
           | (Dir d _ _ as sub) :: ds' =>
               if Str.mem d repo_dirs then over ds'
               else match find_in_tree (Posixpath.join root d) sub filename with
                    | Some f => Some f
                    | None => over ds'
                    end
           end) subdirs
  end.

(** the body of the scan loops of [get_clang_flags] and [find_db_flags]:
    [if f not in flags: flags.append(f)] *)
Definition pair_eqb (f g : string * string) : bool :=
  String.eqb (fst f) (fst g) && String.eqb (snd f) (snd g).

Definition append_new (flags : list (string * string)) (f : string * string)
    : list (string * string) :=
  if existsb (pair_eqb f) flags then flags else flags ++ [f].

(** a scan loop as a whole: [flags = []] and, for each candidate [f] in
    turn, [if f not in flags: flags.append(f)] *)
Definition collect_pairs (flags items : list (string * string))
    : list (string * string) :=
  fold_left append_new items flags.

(** [(item.group(1), item.group(2))] *)
Definition flag_val (item : caps) : string * string :=
  (grp 1 item, grp 2 item).

(** the scan of [get_clang_flags] over the joined verbose output *)
Definition scan_default_flags (stdout : list string) : list (string * string) :=
  collect_pairs []
    (map flag_val (finditer clang_flag_scan (Str.join " " stdout))).

(** [flags = self.get_clang_flags(lang) + flags] followed by
    [if db_flags: flags = db_flags + flags] in [gather_candidates] *)
Definition merge_flags (db_flags : option (list string))
    (default_flags flags : list string) : list string :=
  let flags := default_flags ++ flags in
  match db_flags with
  | Some (f :: fs) => (f :: fs) ++ flags
  | _ => flags
  end.

(** [list(chain.from_iterable(flags))] *)
Definition chain_pairs (flags : list (string * string)) : list string :=
  flat_map (fun f => [fst f; snd f]) flags.

(** [bad.group(1) for bad in re.finditer(r"unknown argument: '([^']+)'",
    stderr)]: the arguments a diagnostic text reports *)
Definition reported (stderr : string) : list string :=
  map (grp 1) (finditer unknown_argument stderr).

(** the inner loop of [call_clang] over the reported arguments: each is
    remembered; the loop is left at the first one that [cmd] does not
    contain, otherwise every occurrence of it is removed from [cmd] *)
Fixpoint strip_unknown (args bad cmd : list string)
    : list string * list string :=
  match args with
  | [] => (bad, cmd)
  | arg :: rest =>
      let bad' := if Str.mem arg bad then bad else bad ++ [arg] in
      if negb (Str.mem arg cmd) then (bad', cmd)
      else strip_unknown rest bad'
             (List.filter (fun a => negb (String.eqb a arg)) cmd)
  end.

Section Plugin.

Context {W : Type} (H : Host W).

Local Open Scope monad_scope.

(** [subprocess.Popen(cmd, ...)] followed by [communicate] *)
Definition spawn (cmd : list string) (stdin : string) : M W (string * string) :=
  fun st =>
    let '(w, oe) := popen H (world st) cmd stdin in
    (Ok oe, Build_St (self st) w (spawned st ++ [cmd])).

(** [Source.find_file] *)
Definition find_file (path filename : string) : M W (option string) :=
  t <- ask (fun w => walk H w path) ;;
  ret (find_in_tree path t filename).

(** the test of [clean_flags] before [flag.replace('~', home)] *)
Definition needs_home (flag : string) : bool :=
  Str.startswith "~" flag
  || (Str.contains "~" flag &&
      match rmatch path_flag flag with Some _ => true | None => false end).

(** the home-directory step of [clean_flags] on one token *)
Definition expand_home (flag : string) : string :=
  if needs_home flag then Str.replace_chr "~" (home H) flag else flag.

(** the tokens that [clean_flags] keeps, after [os.path.expandvars] *)
Definition kept_tokens (flags : list string) : list string :=
  List.filter (fun flag => negb (Str.startswith "-darwin=" flag))
    (map (expandvars H) flags).

(** the [for] loop of [clean_flags]: the tokens kept so far and the
    version a [-darwin=] token selected, if one was seen *)
Fixpoint clean_tokens (flags out : list string)
    (dv : option (option (string * Z)))
    : list string * option (option (string * Z)) :=
  match flags with
  | [] => (out, dv)
  | flag :: rest =>
      let flag := expandvars H flag in
      if Str.startswith "-darwin=" flag then
        let v := match StrMore.split_first "=" flag with
                 | Some (_, v) => darwin_versions v
                 | None => None
                 end in
        clean_tokens rest out (Some v)
      else
        clean_tokens rest (out ++ [expand_home flag]) dv
  end.

(** [Source.clean_flags] *)
Definition clean_flags (flags : flags_arg) : M W (list string) :=
  tokens <- match flags with
            | FStr s => match shlex_split H s with
                        | Some l => ret l
                        | None => raise ValueError
                        end
            | FList l => ret l
            end ;;
  let '(out, dv) := clean_tokens tokens [] None in
  match dv with
  | Some v => modify (set_darwin_version v)
  | None => ret tt
  end ;;;
  ret out.

(** the [while] loop of [call_clang]; [stdout] and [stderr] are the
    variables of that name *)
Fixpoint call_clang_loop (retry : nat) (stdin : string) (cmd : list string)
    (stdout stderr : string) : M W (string * string) :=
  match retry with
  | 0 => ret (stdout, stderr)
  | S retry' =>
      oe <- spawn cmd stdin ;;
      let stderr := snd oe in
      if Str.contains "unknown argument" stderr then
        bad <- gets bad_flags ;;
        let '(bad', cmd') := strip_unknown (reported stderr) bad cmd in
        modify (set_bad_flags bad') ;;;
        call_clang_loop retry' stdin cmd' stdout stderr
      else ret (fst oe, stderr)
  end.

(** [Source.call_clang] *)
Definition call_clang (src cmd : list string) (ret_stderr : bool)
    : M W (list string) :=
  bad <- gets bad_flags ;;
  let cmd := "clang" :: List.filter (fun arg => negb (Str.mem arg bad)) cmd in
  oe <- call_clang_loop 5 (Str.join newline src) cmd EmptyString EmptyString ;;
  if ret_stderr then ret (Str.split_chr "010" (snd oe))
  else ret (Str.split_chr "010" (fst oe)).

(** [Source.get_clang_flags] *)
Definition get_clang_flags (lang : string) : M W (list string) :=
  cache <- gets clang_flags ;;
  match cache !! lang with
  | Some flags => ret flags
  | None =>
      stdout <- call_clang [] ["-fsyntax-only"; "-x"; lang; "-"; "-v"] true ;;
      let flags := scan_default_flags stdout in
      cleaned <- clean_flags (FList (chain_pairs flags)) ;;
      modify (fun s => set_clang_flags (<[lang := cleaned]> (clang_flags s)) s) ;;;
      ret cleaned
  end.

(** [Source.parse_clang_flags_file] *)
Definition parse_clang_flags_file (filename : string) : M W (list string) :=
  content <- ask (fun w => read_text H w filename) ;;
  match content with
  | Some text => clean_flags (FStr text)
  | None => ret []
  end.

(** how the [while] loop of [get_user_flags] ends *)
Inductive walk_end : Type :=
| FoundFile (file : string)
| ProjectRoot (parent : string)
| TopReached (parent : string)
| ListdirFailed (parent : string)
| OutOfFuel.

(** [set(names).isdisjoint(repo_dirs)] *)
Definition no_repo_dir (names : list string) : bool :=
  forallb (fun d => negb (Str.mem d names)) repo_dirs.

(** the [while parent != last_parent] loop of [get_user_flags] *)
Fixpoint walk_up (fuel : nat) (w : W) (parent last_parent : string)
    : walk_end :=
  match fuel with
  | 0 => OutOfFuel
  | S fuel' =>
      if String.eqb parent last_parent then TopReached parent
      else
        let file := Posixpath.join parent ".clang" in
        if isfile H w file then FoundFile file
        else match listdir H w parent with
             | None => ListdirFailed parent
             | Some names =>
                 if no_repo_dir names then ProjectRoot parent
                 else walk_up fuel' w (Posixpath.dirname parent) parent
             end
  end.

(** [Source.get_user_flags]; the walk gets more fuel than the length of
    [cwd], which it cannot use up *)
Definition get_user_flags (ctx : Context) : M W (list string) :=
  let flags := match var_flags ctx with Some f => f | None => FList [] end in
  memo <- gets user_flags ;;
  match memo !! cwd ctx with
  | Some (Some file) =>
      if String.eqb file EmptyString then clean_flags flags
      else parse_clang_flags_file file
  | Some None => clean_flags flags
  | None =>
      e <- ask (fun w => walk_up (S (S (String.length (cwd ctx)))) w
                           (cwd ctx) EmptyString) ;;
      match e with
      | FoundFile file =>
          modify (fun s => set_user_flags (<[cwd ctx := Some file]> (user_flags s)) s) ;;;
          parse_clang_flags_file file
      | ListdirFailed _ => raise OSError
      | ProjectRoot _ | TopReached _ | OutOfFuel =>
          modify (fun s => set_user_flags (<[cwd ctx := None]> (user_flags s)) s) ;;;
          clean_flags flags
      end
  end.

(** the inner loop of [find_db_flags] over the flags of one [command] *)
Definition db_flag_val (directory : string) (item : caps) : string * string :=
  let flag := grp 1 item in
  let val := grp 2 item in
  let val :=
    if negb (String.eqb flag "-D")
    then Posixpath.normpath (Posixpath.join directory val)
    else val in
  (flag, val).

Definition scan_command (directory command : string)
    (flags : list (string * string)) : list (string * string) :=
  collect_pairs flags
    (map (db_flag_val directory) (finditer db_flag_scan command)).

(** the loop of [find_db_flags] over the records; [flags] is the list
    created before the loop; [None] when a record has no [command] *)
Fixpoint db_entries (cwd : string) (records : list DbEntry)
    (flags : list (string * string)) (entries : gmap string (list string))
    : option (gmap string (list string)) :=
  match records with
  | [] => Some entries
  | entry :: rest =>
      let directory :=
        match e_directory entry with Some d => d | None => cwd end in
      let file :=
        Posixpath.splitext_root
          (match e_file entry with Some f => f | None => EmptyString end) in
      match e_command entry with
      | None => None
      | Some command =>
          let flags := scan_command directory command flags in
          db_entries cwd rest flags (<[file := chain_pairs flags]> entries)
      end
  end.

(** [Source.find_db_flags] *)
Definition find_db_flags (ctx : Context) : M W (option (list string)) :=
  let absname := Posixpath.splitext_root (Posixpath.join (cwd ctx) (bufname ctx)) in
  dbs <- gets db_files ;;
  match dbs !! cwd ctx with
  | Some db => ret (entries db !! absname)
  | None =>
      found <- find_file (cwd ctx) "compile_commands.json" ;;
      match found with
      | None => ret None
      | Some file =>
          content <- ask (fun w => read_text H w file) ;;
          match content with
          | None => raise OSError
          | Some text =>
              match json_load H text with
              | None => raise ValueError
              | Some records =>
                  match db_entries (cwd ctx) records [] ∅ with
                  | None => raise TypeError
                  | Some es =>
                      modify (fun s =>
                                set_db_files
                                  (<[cwd ctx := {| db_file := file; entries := es |}]>
                                     (db_files s)) s) ;;;
                      ret (es !! absname)
                  end
              end
          end
      end
  end.

(** [pch_cache] *)
Definition pch_cache : string := Posixpath.join (tempdir H) "deoplete-clang2".

(** the cached artifact of a prefix header for given arguments *)
Definition pch_generated (cmd flags : list string) (pch : string) : string :=
  Posixpath.join pch_cache
    (Posixpath.basename pch +:+ "." +:+
     sha1_hexdigest H (String.concat EmptyString (cmd ++ flags ++ [pch]))
     +:+ ".h").

(** the test that makes [generate_pch] call the compiler *)
Definition pch_stale (w : W) (generated pch : string) : bool :=
  negb (path_exists H w generated)
  || (getmtime H w generated <? getmtime H w pch)%Z.

(** the arguments of the header-emission call *)
Definition pch_emit_args (cmd flags : list string) (pch generated : string)
    : list string :=
  ["-cc1"] ++ cmd ++ flags ++ [pch; "-emit-pch"; "-o"; generated].

(** the [for pch in glob.glob(...)] loop of [generate_pch] *)
Fixpoint pch_loop (pchs cmd flags : list string) : M W (list string) :=
  match pchs with
  | [] => ret cmd
  | pch :: rest =>
      let generated := pch_generated cmd flags pch in
      stale <- ask (fun w => pch_stale w generated pch) ;;
      (if stale
       then call_clang [] (pch_emit_args cmd flags pch generated) false ;;; ret tt
       else ret tt) ;;;
      present <- ask (fun w => path_exists H w generated) ;;
      if present then ret (cmd ++ ["-include-pch"; generated])
      else pch_loop rest cmd flags
  end.

(** the state after the visit of one prefix header, before the test for
    the artifact *)
Definition pch_visit (cmd flags : list string) (pch : string) (st : St W)
    : St W :=
  let generated := pch_generated cmd flags pch in
  if pch_stale (world st) generated pch
  then snd (call_clang [] (pch_emit_args cmd flags pch generated) false st)
  else st.

(** [Source.generate_pch] *)
Definition generate_pch (ctx : Context) (cmd flags : list string)
    : M W (list string * list string) :=
  present <- ask (fun w => path_exists H w pch_cache) ;;
  (if present then ret tt else act (fun w => makedirs H w pch_cache)) ;;;
  if String.eqb (cwd ctx) EmptyString then ret (cmd, flags)
  else
    pchs <- ask (fun w => glob H w (Posixpath.join (cwd ctx) "*-Prefix.pch")) ;;
    cmd' <- pch_loop pchs cmd flags ;;
    ret (cmd', flags).

(** [Source.apply_darwin_flags] *)
Definition apply_darwin_flags (version : string * Z) (flags : list string)
    : M W (list string) :=
  let sdk_name := "MacOSX" +:+ fst version +:+ ".sdk" in
  found <- ask (fun w => find (isdir H w)
                           (map (fun p => Posixpath.join p sdk_name)
                                (darwin_sdk_paths H))) ;;
  match found with
  | None =>
      idle <- ask (download_idle H) ;;
      (if idle then act (fun w => start_download H w (fst version)) else ret tt) ;;;
      ret flags
  | Some sdk_path =>
      ret (flags ++
           ["-D__MACH__";
            "-D__MAC_OS_X_VERSION_MAX_ALLOWED=" +:+ StrMore.fmt_d (snd version);
            "-D__APPLE_CPP__";
            "-DTARGET_CPU_X86_64";
            "-fblocks";
            "-fasm-blocks";
            "-fno-builtin";
            "-isysroot" +:+ sdk_path;
            "-iframework" +:+ Posixpath.join sdk_path "System/Library/Frameworks";
            "-isystem" +:+ Posixpath.join sdk_path "usr/include"])
  end.

(** the loop of [gather_candidates] over the compiler's output lines;
    [pattern] collects a multi-line [Pattern] item *)
Fixpoint parse_items (items : list string) (pattern : string)
    (completions : list Completion) : list Completion :=
  match items with
  | [] =>
      if String.eqb pattern EmptyString then completions
      else completions ++ [parse_completion pattern]
  | item :: rest =>
      if Str.startswith "COMPLETION:" item then
        let completions :=
          if String.eqb pattern EmptyString then completions
          else completions ++ [parse_completion pattern] in
        let item := Str.strip (Str.drop 11 item) in
        if Str.startswith "Pattern :" item
        then parse_items rest item completions
        else parse_items rest EmptyString (completions ++ [parse_completion item])
      else if String.eqb pattern EmptyString
      then parse_items rest pattern completions
      else parse_items rest (pattern +:+ item) completions
  end.

(** [not length_exemption and len(complete_str) < min_length] *)
Definition too_short (ctx : Context) : bool :=
  let min_length :=
    match auto_complete_start_length ctx with Some n => n | None => 2%Z end in
  let length_exemption :=
    match clang2_pattern ctx with
    | Some pat =>
        match search (Cat pat Eol) (input ctx) with
        | Some _ => true
        | None => false
        end
    | None => false
    end in
  negb length_exemption
  && (Z.of_nat (String.length (complete_str ctx)) <? min_length)%Z.

(** [self.last.get('line', 0) == line] *)
Definition same_line (lst : option Last) (ctx : Context) : bool :=
  (match lst with Some l => last_line l | None => 0%Z end =? line ctx)%Z.

(** [same_line and self.last.get('col', 0) == pos] *)
Definition same_position (lst : option Last) (ctx : Context) : bool :=
  same_line lst ctx
  && (match lst with Some l => last_col l | None => 0%Z end
      =? complete_position ctx)%Z.

(** [self.last.get('completions', [])] *)
Definition cached_completions (lst : option Last) : list Completion :=
  match lst with Some l => last_completions l | None => [] end.

(** [scope_pos]: the input ends at a scope position *)
Definition scope_pos (ctx : Context) : bool :=
  match search scope_pos_pattern (input ctx) with
  | Some _ => true
  | None => false
  end.

(** [scope_reuse and same_line and scope_pos and self.scope_completions] *)
Definition scope_hit (lst : option Last) (sc : list Completion)
    (ctx : Context) : bool :=
  let last_input :=
    match lst with Some l => last_input l | None => EmptyString end in
  let objc :=
    String.eqb (filetype ctx) "objc" || String.eqb (filetype ctx) "objcpp" in
  let scope_reuse :=
    negb objc
    || (negb (String.eqb (input ctx) last_input)
        && String.eqb (Str.rstrip (input ctx)) (Str.rstrip last_input)) in
  scope_reuse && same_line lst ctx && scope_pos ctx
  && match sc with [] => false | _ => true end.

(** [gather_candidates] from the language lookup on: the path that runs
    the compiler *)
Definition complete_with_clang (ctx : Context) (flags src : list string)
    (lang : string) : M W (list Completion) :=
  let pos := complete_position ctx in
  let code_flags :=
    ["-code-completion-macros";
     "-code-completion-patterns";
     "-code-completion-at=-:" +:+ StrMore.fmt_d (line ctx) +:+ ":"
       +:+ StrMore.fmt_d (pos + 1)] in
  let std :=
    match var_std ctx (filetype ctx) with
    | Some s =>
        if String.eqb s EmptyString then std_default (filetype ctx) else Some s
    | None => std_default (filetype ctx)
    end in
  let cmd := ["-x"; lang] in
  let std := "-std=" +:+ match std with Some s => s | None => "None" end in
  default_flags <- get_clang_flags lang ;;
  db_flags <- find_db_flags ctx ;;
  let flags := merge_flags db_flags default_flags flags in
  let cmd :=
    if existsb (Str.startswith "-std=") flags then cmd else cmd ++ [std] in
  cf <- generate_pch ctx cmd flags ;;
  let cmd :=
    ["-cc1"; "-fsyntax-only"] ++ fst cf ++ code_flags ++ snd cf
    ++ ["-O0"; "-w"] ++ ["-"] in
  items <- call_clang src cmd false ;;
  let completions := parse_items items EmptyString [] in
  modify (set_last (Some {| last_input := input ctx; last_line := line ctx;
                            last_col := pos;
                            last_completions := completions |})) ;;;
  (if scope_pos ctx then modify (set_scope_completions completions)
   else ret tt) ;;;
  ret completions.

(** [gather_candidates] after the cache checks: flag lookup, language
    lookup, and the compiler path *)
Definition resolve_and_complete (ctx : Context) : M W (list Completion) :=
  flags <- get_user_flags ctx ;;
  dv <- gets darwin_version ;;
  flags <- match dv with
           | Some version => apply_darwin_flags version flags
           | None => ret flags
           end ;;
  src <- ask (buffer H) ;;
  match lang_names (filetype ctx) with
  | None => ret []
  | Some lang => complete_with_clang ctx flags src lang
  end.

(** [Source.gather_candidates] *)
Definition gather_candidates (ctx : Context) : M W (list Completion) :=
  modify (set_darwin_version None) ;;;
  if too_short ctx then ret []
  else
    lst <- gets last ;;
    if same_position lst ctx then ret (cached_completions lst)
    else
      sc <- gets scope_completions ;;
      if scope_hit lst sc ctx then ret sc
      else resolve_and_complete ctx.

(** [Source.on_event] *)
Definition on_event (ctx : Context) : M W unit :=
  if String.eqb (event ctx) "BufWritePost" then
    find_db_flags ctx ;;;
    modify (set_last None) ;;;
    modify (set_scope_completions [])
  else ret tt.

End Plugin.

(** ** A simulated host

    A world that is a flat list of files and directories with modification
    times, a process environment, and a scripted [clang]: enough to run
    the plugin on concrete requests. *)

Module Sim.

Record File : Type := {
  path : string;
  mtime : Z;
  content : option string
}.

Definition World : Type := list File.

Definition lookup (w : World) (p : string) : option File :=
  find (fun f => String.eqb (path f) p) w.

Definition is_some {A} (o : option A) : bool :=
  match o with Some _ => true | None => false end.

Definition children (w : World) (dir : string) : list File :=
  List.filter (fun f => String.eqb (Posixpath.dirname (path f)) dir
                   && negb (String.eqb (path f) dir)) w.

Definition is_dir (w : World) (p : string) : bool :=
  match lookup w p with
  | Some f => negb (is_some (content f))
  | None => false
  end.

Definition is_file (w : World) (p : string) : bool :=
  match lookup w p with
  | Some f => is_some (content f)
  | None => false
  end.

Definition sim_listdir (w : World) (p : string) : option (list string) :=
  if is_dir w p
  then Some (map (fun f => Posixpath.basename (path f)) (children w p))
  else None.

Fixpoint tree (depth : nat) (w : World) (p : string) : dirtree :=
  let kids := children w p in
  Dir (Posixpath.basename p)
    (map (fun f => Posixpath.basename (path f))
         (List.filter (fun f => is_some (content f)) kids))
    match depth with
    | 0 => []
    | S d =>
        map (fun f => tree d w (path f))
            (List.filter (fun f => negb (is_some (content f))) kids)
    end.

(** [glob] of [dir/*suffix], the only shape the plugin asks for *)
Definition sim_glob (w : World) (pattern : string) : list string :=
  let dir := Posixpath.dirname pattern in
  let suffix := Str.drop 1 (Posixpath.basename pattern) in
  map path
    (List.filter (fun f => Str.endswith suffix (Posixpath.basename (path f)))
            (children w dir)).

(** [os.path.expandvars] over an environment: [$name] and [${name}] are
    replaced when [name] is set and left alone otherwise *)
Definition is_word (a : ascii) : bool :=
  let n := nat_of_ascii a in
  (Nat.leb 48 n && Nat.leb n 57) || (Nat.leb 65 n && Nat.leb n 90)
  || (Nat.leb 97 n && Nat.leb n 122) || Nat.eqb n 95.

Definition varprog : regex :=
  Cat (Chr "$")
      (Grp 1 (Alt (Plus (Cls is_word))
                  (Cat (Chr "{")
                       (Cat (Star (Cls (fun a => negb (Ascii.eqb a "}"))))
                            (Chr "}"))))).

Definition sim_expandvars (env : list (string * string)) (s : string) : string :=
  StrMore.sub varprog
    (fun c =>
       let name := grp 1 c in
       let name :=
         if Str.startswith "{" name && Str.endswith "}" name
         then Str.take (String.length name - 2) (Str.drop 1 name)
         else name in
       match find (fun p => String.eqb (fst p) name) env with
       | Some p => snd p
       | None => grp 0 c
       end) s.

(** the whitespace of [shlex]: blank, tab, carriage return, newline *)
Definition shlex_space (a : ascii) : bool :=
  Ascii.eqb a " " || Ascii.eqb a "009" || Ascii.eqb a "013"
  || Ascii.eqb a "010".

(** the words of a text between runs of whitespace; [word] is the word
    being read, reversed *)
Fixpoint words (s : string) (word : list ascii) : list string :=
  let close :=
    match word with
    | [] => []
    | _ => [string_of_list_ascii (rev word)]
    end in
  match s with
  | EmptyString => close
  | String a s' =>
      if shlex_space a then close ++ words s' []
      else words s' (a :: word)
  end.

(** [shlex.split] of a text without quotes, escapes or comments *)
Definition sim_shlex (s : string) : option (list string) :=
  Some (words s []).

(** a stand-in for the digest: the sum of the code points, in decimal *)
Fixpoint code_sum (s : string) : nat :=
  match s with
  | EmptyString => 0
  | String a s' => nat_of_ascii a + code_sum s'
  end.

Definition toy_digest (data : string) : string :=
  StrMore.fmt_d (Z.of_nat (code_sum data)).

(** the argument after [-o], if any *)
Fixpoint output_of (cmd : list string) : option string :=
  match cmd with
  | [] => None
  | a :: rest =>
      if String.eqb a "-o" then
        match rest with
        | o :: _ => Some o
        | [] => None
        end
      else output_of rest
  end.

(** what the scripted compiler is given to decide on *)
Record Script : Type := {
  env : list (string * string);
  clang : list string -> string -> string * string;
  emits : bool;
  now : Z;
  json : string -> option (list DbEntry);
  lines : list string
}.

(** running the scripted compiler: with [-emit-pch] and [emits] set, the
    output file comes into existence *)
Definition sim_popen (sc : Script) (w : World) (cmd : list string)
    (stdin : string) : World * (string * string) :=
  let w' :=
    if Str.mem "-emit-pch" cmd && emits sc then
      match output_of cmd with
      | Some o =>
          {| path := o; mtime := now sc; content := Some "pch" |}
          :: List.filter (fun f => negb (String.eqb (path f) o)) w
      | None => w
      end
    else w in
  (w', clang sc cmd stdin).

Definition host (sc : Script) : Host World :=
  {| home := "/home/user";
     expandvars := sim_expandvars (env sc);
     tempdir := "/tmp";
     darwin_sdk_paths := ["~/.local/share/SDKs"];
     shlex_split := sim_shlex;
     json_load := json sc;
     sha1_hexdigest := toy_digest;
     isfile := is_file;
     isdir := is_dir;
     path_exists := fun w p => is_some (lookup w p);
     getmtime := fun w p => match lookup w p with
                            | Some f => mtime f
                            | None => 0%Z
                            end;
     listdir := sim_listdir;
     read_text := fun w p => match lookup w p with
                             | Some f => content f
                             | None => None
                             end;
     glob := sim_glob;
     walk := tree 8;
     makedirs := fun w p => {| path := p; mtime := 0; content := None |} :: w;
     popen := sim_popen sc;
     download_idle := fun _ => true;
     start_download := fun w _ => w;
     buffer := fun _ => lines sc |}.

(** a start state: a fresh plugin instance in world [w] *)
Definition start (w : World) : St World :=
  {| self := init_source; world := w; spawned := [] |}.

Definition dir (p : string) : File :=
  {| path := p; mtime := 0; content := None |}.

Definition file (p : string) (t : Z) (text : string) : File :=
  {| path := p; mtime := t; content := Some text |}.

(** a request: the keys that vary between the examples *)
Definition request (inp ft cstr : string) (pos ln : Z) (dir : string)
    : Context :=
  {| input := inp; filetype := ft; complete_str := cstr;
     complete_position := pos; line := ln; cwd := dir;
     bufname := "main.c"; clang2_pattern := Some clang2_pattern_c;
     event := EmptyString; auto_complete_start_length := None;
     var_flags := None; var_std := fun _ => None |}.

End Sim.

(** ** Scenarios for the simulated host *)

Module Scenario.

(** a compiler that rejects [-foo] on every run, whatever it is given,
    and prints one completion all the same *)
Definition stubborn : Sim.Script :=
  {| Sim.env := [];
     Sim.clang := fun _ _ =>
       ("COMPLETION: x : [#int#]x", "clang: error: unknown argument: '-foo'");
     Sim.emits := false;
     Sim.now := 0;
     Sim.json := fun _ => None;
     Sim.lines := [] |}.

(** a compiler that accepts everything: asked for its verbose output it
    names one system include directory (twice), otherwise it prints one
    completion *)
Definition verbose : Sim.Script :=
  {| Sim.env := [];
     Sim.clang := fun cmd _ =>
       if Str.mem "-v" cmd
       then (EmptyString,
             "clang -cc1 -isystem /usr/include -isystem /usr/include")
       else ("COMPLETION: x : [#int#]x", EmptyString);
     Sim.emits := true;
     Sim.now := 5;
     Sim.json := fun _ => None;
     Sim.lines := ["int main() {"; "}"] |}.

(** a working directory without flag file, database or prefix header *)
Definition plain_world : Sim.World := [Sim.dir "/"; Sim.dir "/src"].

(** a checkout at [/proj] with a subdirectory and no [.clang] file *)
Definition repo_world : Sim.World :=
  [Sim.dir "/"; Sim.dir "/proj"; Sim.dir "/proj/.git"; Sim.dir "/proj/sub"].

(** the two records of a build database of [/p], and the text of the
    database file that the scripted [json.load] reads them from *)
Definition two_records : list DbEntry :=
  [{| e_directory := Some "/p"; e_file := Some "/p/a.c";
      e_command := Some "cc -I inc_a -c a.c" |};
   {| e_directory := Some "/p"; e_file := Some "/p/b.c";
      e_command := Some "cc -DB=1 -c b.c" |}].

Definition db_text : string := "[a.c, b.c]".

Definition db_world : Sim.World :=
  [Sim.dir "/"; Sim.dir "/p";
   Sim.file "/p/compile_commands.json" 1 db_text].

(** the accepting compiler in an environment that sets [FOO], with the
    database reader *)
Definition accepting : Sim.Script :=
  {| Sim.env := [("FOO", "bar")];
     Sim.clang := Sim.clang verbose;
     Sim.emits := true;
     Sim.now := 5;
     Sim.json := fun text =>
       if String.eqb text db_text then Some two_records else None;
     Sim.lines := Sim.lines verbose |}.

(** the checkout with a flag file at its root *)
Definition flagged_world : Sim.World :=
  [Sim.dir "/"; Sim.dir "/proj"; Sim.dir "/proj/.git";
   Sim.file "/proj/.clang" 1 "-I~/inc -DX=$FOO"].

(** a request of a host with [deoplete#auto_complete_start_length] 0 *)
Definition eager (ctx : Context) : Context :=
  {| input := input ctx; filetype := filetype ctx;
     complete_str := complete_str ctx;
     complete_position := complete_position ctx; line := line ctx;
     cwd := cwd ctx; bufname := bufname ctx;
     clang2_pattern := clang2_pattern ctx; event := event ctx;
     auto_complete_start_length := Some 0%Z;
     var_flags := var_flags ctx; var_std := var_std ctx |}.

(** the completion that the accepting compiler prints *)
Definition x_item : Completion :=
  {| word := "x"; abbr := "x"; kind := "int"; info := "(int)";
     icase := 1; dup := 1 |}.

(** a project with a prefix header whose cached artifact, for the
    arguments [-x c -std=c11] and no flags, carries time [t] *)
Definition prefix_header : string := "/src/App-Prefix.pch".

Definition pch_artifact : string :=
  pch_generated (Sim.host verbose) ["-x"; "c"; "-std=c11"] [] prefix_header.

Definition pch_world (t : Z) : Sim.World :=
  [Sim.dir "/"; Sim.dir "/src"; Sim.file prefix_header 3 "#import";
   Sim.dir "/tmp"; Sim.dir "/tmp/deoplete-clang2";
   Sim.file pch_artifact t "pch"].

(** a request of the host with [deoplete#sources#clang#flags] set *)
Definition with_flags (ctx : Context) (flags : list string) : Context :=
  {| input := input ctx; filetype := filetype ctx;
     complete_str := complete_str ctx;
     complete_position := complete_position ctx; line := line ctx;
     cwd := cwd ctx; bufname := bufname ctx;
     clang2_pattern := clang2_pattern ctx; event := event ctx;
     auto_complete_start_length := auto_complete_start_length ctx;
     var_flags := Some (FList flags); var_std := var_std ctx |}.


(** the checkout with a flag file at its root and a subdirectory *)
Definition flagged_sub_world : Sim.World :=
  [Sim.dir "/"; Sim.dir "/proj"; Sim.dir "/proj/.git";
   Sim.file "/proj/.clang" 1 "-I/proj/inc"; Sim.dir "/proj/sub"].

End Scenario.

(** * Properties *)

(** ** The retry loop of [call_clang] *)

Section Invoker.

Context {W : Type} (h : Host W).

Lemma mem_In (x : string) (l : list string) : Str.mem x l = true <-> In x l.
Proof.
  unfold Str.mem. rewrite existsb_exists. split.
  - intros [y [Hy E]]. apply String.eqb_eq in E. now subst.
  - intros Hx. exists x. split; [assumption | apply String.eqb_refl].
Qed.

Lemma strip_unknown_bad_mono (args bad cmd : list string) (a : string) :
  In a bad -> In a (fst (strip_unknown args bad cmd)).
Proof.
  revert bad cmd. induction args as [|arg rest IH]; intros bad cmd Ha; simpl.
  - exact Ha.
  - assert (Hb : In a (if Str.mem arg bad then bad else bad ++ [arg])).
    { destruct (Str.mem arg bad); [exact Ha | apply in_or_app; now left]. }
    destruct (negb (Str.mem arg cmd)); simpl; [exact Hb | now apply IH].
Qed.


Lemma strip_unknown_cmd_incl (args bad cmd : list string) (x : string) :
  In x (snd (strip_unknown args bad cmd)) -> In x cmd.
Proof.
  revert bad cmd. induction args as [|arg rest IH]; intros bad cmd; simpl.
  - tauto.
  - destruct (negb (Str.mem arg cmd)); simpl; [tauto |].
    intros Hx. apply IH in Hx. apply filter_In in Hx. tauto.
Qed.

(** leaving the scan at a token that the working list lacks: what follows
    the token in the diagnostic plays no part *)
Lemma strip_unknown_stops (pre : list string) (arg : string)
    (post bad cmd : list string) :
  Str.mem arg (snd (strip_unknown pre bad cmd)) = false ->
  strip_unknown (pre ++ arg :: post) bad cmd
  = strip_unknown (pre ++ [arg]) bad cmd.
Proof.
  revert bad cmd. induction pre as [|p pre IH]; intros bad cmd Hm; simpl in *.
  - rewrite Hm. reflexivity.
  - destruct (negb (Str.mem p cmd)); [reflexivity |]. now apply IH.
Qed.

(** one pass of the loop that meets the diagnostic *)
Lemma call_clang_loop_retry (retry : nat) (stdin : string)
    (cmd : list string) (so se : string) (st : St W) :
  let r := popen h (world st) cmd stdin in
  Str.contains "unknown argument" (snd (snd r)) = true ->
  let bc := strip_unknown (reported (snd (snd r))) (bad_flags (self st)) cmd in
  call_clang_loop h (S retry) stdin cmd so se st
  = call_clang_loop h retry stdin (snd bc) so (snd (snd r))
      (Build_St (set_bad_flags (fst bc) (self st)) (fst r)
                (spawned st ++ [cmd])).
Proof.
  intros r Hc bc. subst bc.
  cbn [call_clang_loop]. unfold bind at 1. unfold spawn.
  fold r. destruct r as [w [out err]] eqn:Er. cbn [fst snd] in *.
  rewrite Hc. unfold bind, gets, modify. cbn [self world spawned].
  destruct (strip_unknown _ _ cmd) as [bad' cmd']. reflexivity.
Qed.

(** one pass of the loop without the diagnostic *)
Lemma call_clang_loop_done (retry : nat) (stdin : string)
    (cmd : list string) (so se : string) (st : St W) :
  let r := popen h (world st) cmd stdin in
  Str.contains "unknown argument" (snd (snd r)) = false ->
  call_clang_loop h (S retry) stdin cmd so se st
  = (Ok (snd r), Build_St (self st) (fst r) (spawned st ++ [cmd])).
Proof.
  intros r Hc.
  cbn [call_clang_loop]. unfold bind at 1. unfold spawn.
  fold r. destruct r as [w [out err]] eqn:Er. cbn [fst snd] in *.
  rewrite Hc. reflexivity.
Qed.

(** the loop returns, whatever the compiler answers *)
Lemma call_clang_loop_returns (retry : nat) (stdin : string)
    (cmd : list string) (so se : string) (st : St W) :
  exists oe, fst (call_clang_loop h retry stdin cmd so se st) = Ok oe.
Proof.
  revert cmd so se st. induction retry as [|retry IH]; intros cmd so se st.
  - eexists. reflexivity.
  - destruct (Str.contains "unknown argument"
                (snd (snd (popen h (world st) cmd stdin)))) eqn:Hc.
    + rewrite (call_clang_loop_retry retry stdin cmd so se st Hc). apply IH.
    + rewrite (call_clang_loop_done retry stdin cmd so se st Hc).
      eexists. reflexivity.
Qed.

(** the loop only ever adds to [bad_flags], and every command it runs is
    made of elements of the working list it started from *)
Lemma call_clang_loop_invariant (retry : nat) (stdin : string)
    (cmd : list string) (so se : string) (st : St W) :
  let st' := snd (call_clang_loop h retry stdin cmd so se st) in
  (forall a, In a (bad_flags (self st)) -> In a (bad_flags (self st')))
  /\ exists attempts,
       spawned st' = spawned st ++ attempts
       /\ length attempts <= retry
       /\ forall c x, In c attempts -> In x c -> In x cmd.
Proof.
  revert cmd so se st. induction retry as [|retry IH]; intros cmd so se st.
  - cbn. split; [tauto |]. exists []. rewrite app_nil_r.
    split; [reflexivity | split; [cbn; lia | intros c x []]].
  - destruct (Str.contains "unknown argument"
                (snd (snd (popen h (world st) cmd stdin)))) eqn:Hc.
    + rewrite (call_clang_loop_retry retry stdin cmd so se st Hc).
      match goal with
      | |- context [call_clang_loop h retry stdin ?c so ?e ?s] =>
          destruct (IH c so e s) as [Hb [att [Hs [Hl Hi]]]]
      end.
      cbn zeta. split.
      * intros a Ha. apply Hb. cbn. now apply strip_unknown_bad_mono.
      * exists (cmd :: att). rewrite Hs. cbn [spawned].
        rewrite <- app_assoc.
        split; [reflexivity | split; [cbn; lia |]].
        intros c x [<- | Hin] Hx; [exact Hx |].
        apply (strip_unknown_cmd_incl _ _ _ _ (Hi c x Hin Hx)).
    + rewrite (call_clang_loop_done retry stdin cmd so se st Hc).
      cbn. split; [tauto |]. exists [cmd].
      split; [reflexivity | split; [cbn; lia |]].
      intros c x [<- | []] Hx; exact Hx.
Qed.

(** [call_clang] in terms of its loop *)
Lemma call_clang_unfold (src cmd : list string) (ret_stderr : bool)
    (st : St W) :
  call_clang h src cmd ret_stderr st
  = match call_clang_loop h 5 (Str.join newline src)
            ("clang" :: List.filter
                          (fun arg => negb (Str.mem arg (bad_flags (self st))))
                          cmd)
            EmptyString EmptyString st with
    | (Ok oe, st') =>
        (Ok (Str.split_chr "010" (if ret_stderr then snd oe else fst oe)), st')
    | (Raise e, st') => (Raise e, st')
    end.
Proof.
  unfold call_clang, bind, gets.
  destruct (call_clang_loop h 5 _ _ _ _ st) as [[oe | e] st'];
    [destruct ret_stderr |]; reflexivity.
Qed.

(** when every attempt meets the diagnostic, the loop uses up its
    attempts; it hands back the [stdout] it was entered with and the error
    stream of its last attempt *)
Lemma call_clang_loop_exhausts (retry : nat) (stdin : string)
    (cmd : list string) (so se : string) (st : St W) :
  (forall w c i, Str.contains "unknown argument" (snd (snd (popen h w c i))) = true) ->
  let r := call_clang_loop h retry stdin cmd so se st in
  exists se' attempts,
    fst r = Ok (so, se')
    /\ spawned (snd r) = spawned st ++ attempts
    /\ length attempts = retry
    /\ match retry with
       | 0 => se' = se
       | S _ =>
           exists w c before,
             attempts = before ++ [c]
             /\ se' = snd (snd (popen h w c stdin))
             /\ world (snd r) = fst (popen h w c stdin)
       end.
Proof.
  intros Hall. revert cmd so se st.
  induction retry as [|retry IH]; intros cmd so se st.
  - exists se, []. cbn. rewrite app_nil_r. tauto.
  - cbn zeta.
    rewrite (call_clang_loop_retry retry stdin cmd so se st (Hall _ _ _)).
    match goal with
    | |- context [call_clang_loop h retry stdin ?c so ?e ?s] =>
        destruct (IH c so e s) as [se' [att [Hr [Hs [Hl Hlast]]]]];
        set (r := call_clang_loop h retry stdin c so e s) in *
    end.
    exists se', (cmd :: att).
    split; [exact Hr |].
    split; [rewrite Hs; cbn [spawned]; now rewrite <- app_assoc |].
    split; [cbn; now rewrite Hl |].
    destruct retry as [|retry'].
    + exists (world st), cmd, [].
      destruct att; [| discriminate Hl].
      subst se'. cbn in r. subst r. cbn. tauto.
    + destruct Hlast as [w [c [before [Ha [He Hw]]]]].
      exists w, c, (cmd :: before). rewrite Ha. tauto.
Qed.


Lemma strip_unknown_missing_keeps (pre : list string) (arg : string)
    (bad cmd : list string) :
  Str.mem arg (snd (strip_unknown pre bad cmd)) = false ->
  snd (strip_unknown (pre ++ [arg]) bad cmd)
  = snd (strip_unknown pre bad cmd).
Proof.
  revert bad cmd. induction pre as [|p pre IH]; intros bad cmd Hm; simpl in *.
  - rewrite Hm. reflexivity.
  - destruct (negb (Str.mem p cmd)); [reflexivity |]. now apply IH.
Qed.

(** with an attempt left, the loop runs the working list it is given *)
Lemma call_clang_loop_first_attempt (retry : nat) (stdin : string)
    (cmd : list string) (so se : string) (st : St W) :
  exists more,
    spawned (snd (call_clang_loop h (S retry) stdin cmd so se st))
    = spawned st ++ cmd :: more.
Proof.
  destruct (Str.contains "unknown argument"
              (snd (snd (popen h (world st) cmd stdin)))) eqn:Hc.
  - rewrite (call_clang_loop_retry retry stdin cmd so se st Hc).
    match goal with
    | |- context [call_clang_loop h retry stdin ?c so ?e ?s] =>
        destruct (call_clang_loop_invariant retry stdin c so e s)
          as [_ [att [Hs _]]]
    end.
    exists att. rewrite Hs. cbn [spawned]. now rewrite <- app_assoc.
  - rewrite (call_clang_loop_done retry stdin cmd so se st Hc).
    exists []. reflexivity.
Qed.

(** C2, amended. When a reported token is missing from the working list
    at the moment the scan of the diagnostic meets it, the scan ends there:
    the rest of the diagnostic plays no part and the working list stays as
    it stood.  The pass still counts as one retry and the loop goes on:
    with an attempt left, the compiler is run again on that working
    list. *)
Theorem call_clang_missing_token_ends_scan_not_retries
    (retry : nat) (stdin : string) (cmd : list string) (so se : string)
    (st : St W) (pre : list string) (arg : string) (post : list string) :
  let r := popen h (world st) cmd stdin in
  Str.contains "unknown argument" (snd (snd r)) = true ->
  reported (snd (snd r)) = pre ++ arg :: post ->
  Str.mem arg (snd (strip_unknown pre (bad_flags (self st)) cmd)) = false ->
  let bc := strip_unknown (pre ++ [arg]) (bad_flags (self st)) cmd in
  let st1 := Build_St (set_bad_flags (fst bc) (self st)) (fst r)
               (spawned st ++ [cmd]) in
  snd bc = snd (strip_unknown pre (bad_flags (self st)) cmd)
  /\ call_clang_loop h (S retry) stdin cmd so se st
     = call_clang_loop h retry stdin (snd bc) so (snd (snd r)) st1
  /\ (retry <> 0 ->
      exists more,
        spawned (snd (call_clang_loop h (S retry) stdin cmd so se st))
        = spawned st ++ cmd :: snd bc :: more).
Proof.
  intros r Hc Hrep Hm bc st1.
  assert (Hloop : call_clang_loop h (S retry) stdin cmd so se st
                  = call_clang_loop h retry stdin (snd bc) so (snd (snd r)) st1).
  { rewrite (call_clang_loop_retry retry stdin cmd so se st Hc).
    fold r. rewrite Hrep.
    rewrite (strip_unknown_stops pre arg post _ _ Hm). reflexivity. }
  split; [now apply strip_unknown_missing_keeps |].
  split; [exact Hloop |].
  intros Hretry. rewrite Hloop.
  destruct retry as [|retry']; [congruence |].
  destruct (call_clang_loop_first_attempt retry' stdin (snd bc) so
              (snd (snd r)) st1) as [more Hmore].
  exists more. rewrite Hmore. subst st1. cbn [spawned].
  now rewrite <- app_assoc.
Qed.

(** C3, amended. When every attempt meets the diagnostic, [call_clang]
    asked for the standard output returns the single empty line, and asked
    for the error stream returns the lines of the error stream of its
    fifth and last attempt. *)
Theorem call_clang_exhausted_result (src cmd : list string) (st : St W) :
  (forall w c i,
      Str.contains "unknown argument" (snd (snd (popen h w c i))) = true) ->
  fst (call_clang h src cmd false st) = Ok [EmptyString]
  /\ exists w c before,
       let r := call_clang h src cmd true st in
       spawned (snd r) = spawned st ++ before ++ [c]
       /\ length before = 4
       /\ world (snd r) = fst (popen h w c (Str.join newline src))
       /\ fst r = Ok (Str.split_chr "010"
                        (snd (snd (popen h w c (Str.join newline src))))).
Proof.
  intros Hall. rewrite !call_clang_unfold.
  set (stdin := Str.join newline src).
  set (cmd0 := "clang" :: List.filter _ cmd).
  destruct (call_clang_loop_exhausts 5 stdin cmd0 EmptyString EmptyString st Hall)
    as [se' [att [Hr [Hs [Hl [w [c [before [Ha [He Hw]]]]]]]]]].
  destruct (call_clang_loop h 5 stdin cmd0 EmptyString EmptyString st)
    as [[oe | e] st5]; cbn [fst snd] in *; [| discriminate Hr].
  injection Hr as ->. cbn [fst snd].
  split; [reflexivity |].
  exists w, c, before. rewrite Hs, Ha, Hw, He.
  repeat split.
  rewrite Ha, length_app in Hl. cbn in Hl. lia.
Qed.

End Invoker.

(** *** Runs of the retry loop on the simulated host *)



(** C2, counterexample: called with [-foo], the stubborn compiler is run
    five times.  From the second attempt on, the working list is [clang]
    alone and lacks the reported [-foo]; three more attempts follow. *)
Lemma call_clang_abort_counterexample :
  let h := Sim.host Scenario.stubborn in
  let r := call_clang h [] ["-foo"] false (Sim.start []) in
  reported (snd (snd (popen h [] ["clang"] EmptyString))) = ["-foo"]
  /\ Str.mem "-foo" ["clang"] = false
  /\ spawned (snd r)
     = [["clang"; "-foo"]; ["clang"]; ["clang"]; ["clang"]; ["clang"]]
  /\ spawned (snd r) <> [["clang"; "-foo"]; ["clang"]].
Proof.
  vm_compute. repeat split; discriminate.
Qed.

(** C2, witness: the second attempt of that call. *)
Lemma call_clang_missing_token_witness :
  exists more,
    spawned (snd (call_clang_loop (Sim.host Scenario.stubborn) 4 EmptyString
                    ["clang"] EmptyString EmptyString (Sim.start [])))
    = [] ++ ["clang"] :: ["clang"] :: more.
Proof.
  refine (proj2 (proj2 (call_clang_missing_token_ends_scan_not_retries
                          (Sim.host Scenario.stubborn) 3 EmptyString ["clang"]
                          EmptyString EmptyString (Sim.start [])
                          [] "-foo" [] eq_refl eq_refl eq_refl)) _).
  discriminate.
Defined.

(** C3, counterexample: the last attempt of the stubborn compiler printed
    a completion, yet the call returns the single empty line. *)
Lemma call_clang_partial_output_counterexample :
  let h := Sim.host Scenario.stubborn in
  let r := call_clang h [] ["-foo"] false (Sim.start []) in
  fst (snd (popen h (world (snd r)) ["clang"] EmptyString))
  = "COMPLETION: x : [#int#]x"
  /\ List.last (spawned (snd r)) [] = ["clang"]
  /\ fst r = Ok [EmptyString]
  /\ fst r <> Ok (Str.split_chr "010" "COMPLETION: x : [#int#]x").
Proof.
  vm_compute. repeat split; discriminate.
Qed.

(** C3, witness: the same call, for either stream. *)
Lemma call_clang_exhausted_result_witness :
  fst (call_clang (Sim.host Scenario.stubborn) [] ["-foo"] false (Sim.start []))
  = Ok [EmptyString].
Proof.
  exact (proj1 (call_clang_exhausted_result (Sim.host Scenario.stubborn)
                  [] ["-foo"] (Sim.start []) (fun _ _ _ => eq_refl))).
Defined.

(** ** Merging the flag sources *)

Section Merging.

Lemma pair_eqb_eq (f g : string * string) : pair_eqb f g = true <-> f = g.
Proof.
  destruct f as [f1 f2], g as [g1 g2]. unfold pair_eqb. cbn [fst snd].
  rewrite andb_true_iff, !String.eqb_eq. split.
  - intros [-> ->]. reflexivity.
  - intros E. injection E as -> ->. tauto.
Qed.

Lemma append_new_spec (flags : list (string * string)) (f : string * string) :
  (In f flags /\ append_new flags f = flags)
  \/ (~ In f flags /\ append_new flags f = flags ++ [f]).
Proof.
  unfold append_new. destruct (existsb (pair_eqb f) flags) eqn:E.
  - left. apply existsb_exists in E. destruct E as [g [Hg Hfg]].
    apply pair_eqb_eq in Hfg. subst g. tauto.
  - right. split; [| reflexivity]. intros Hin.
    assert (existsb (pair_eqb f) flags = true).
    { apply existsb_exists. exists f. split; [exact Hin |].
      now apply pair_eqb_eq. }
    congruence.
Qed.



End Merging.


(** ** The upward search for the project flag file *)

Section FlagFileWalk.

Context {W : Type} (h : Host W).

Lemma prefix_length (a b : string) :
  String.prefix a b = true ->
  String.length a <= String.length b
  /\ (String.length a = String.length b -> a = b).
Proof.
  revert b. induction a as [|x a IH]; intros b Hp.
  - cbn. split; [lia |]. destruct b; [reflexivity | discriminate].
  - destruct b as [|y b]; [discriminate |]. cbn in Hp.
    destruct (Ascii.ascii_dec x y) as [-> | Hne]; [| discriminate].
    destruct (IH b Hp) as [Hle Heq]. cbn. split; [lia |].
    intros E. f_equal. apply Heq. lia.
Qed.

Lemma prefix_refl (a : string) : String.prefix a a = true.
Proof.
  induction a as [|x a IH]; [reflexivity |]. cbn.
  destruct (Ascii.ascii_dec x x); [exact IH | congruence].
Qed.

Lemma prefix_trans (a b c : string) :
  String.prefix a b = true -> String.prefix b c = true ->
  String.prefix a c = true.
Proof.
  revert b c. induction a as [|x a IH]; intros b c Hab Hbc;
    [destruct c; reflexivity |].
  destruct b as [|y b]; [discriminate |].
  destruct c as [|z c]; [discriminate |]. cbn in *.
  destruct (Ascii.ascii_dec x y) as [-> | ]; [| discriminate].
  destruct (Ascii.ascii_dec y z) as [-> | ]; [| discriminate].
  now apply (IH b c).
Qed.

Lemma take_prefix (n : nat) (s : string) : String.prefix (Str.take n s) s = true.
Proof.
  revert n. induction s as [|x s IH]; intros [|n]; cbn; try reflexivity.
  destruct (Ascii.ascii_dec x x); [apply IH | congruence].
Qed.

Lemma rstrip_chr_prefix (c : ascii) (s : string) :
  String.prefix (Str.rstrip_chr c s) s = true.
Proof.
  induction s as [|x s IH]; [reflexivity |]. cbn.
  destruct (Str.rstrip_chr c s) as [|y r] eqn:E.
  - destruct (Ascii.eqb x c); [reflexivity |]. cbn.
    destruct (Ascii.ascii_dec x x); [exact IH | congruence].
  - cbn. destruct (Ascii.ascii_dec x x); [exact IH | congruence].
Qed.

Lemma dirname_prefix (p : string) :
  String.prefix (Posixpath.dirname p) p = true.
Proof.
  unfold Posixpath.dirname.
  match goal with |- context [if ?b then _ else _] => destruct b end.
  - eapply prefix_trans; [apply rstrip_chr_prefix | apply take_prefix].
  - apply take_prefix.
Qed.

(** a directory name that changes gets shorter *)
Lemma dirname_shorter (p : string) :
  Posixpath.dirname p <> p ->
  String.length (Posixpath.dirname p) < String.length p.
Proof.
  intros Hne. destruct (prefix_length _ _ (dirname_prefix p)) as [Hle Heq].
  destruct (Nat.eq_dec (String.length (Posixpath.dirname p)) (String.length p))
    as [E | E]; [elim Hne; now apply Heq | lia].
Qed.

Lemma ancestor_succ_r (k : nat) (p : string) :
  ancestor (S k) p = ancestor k (Posixpath.dirname p).
Proof. unfold ancestor. apply Nat.iter_succ_r. Qed.

(** the search has fuel to spare: it never ends for lack of it *)
Lemma walk_up_fuel (w : W) (fuel : nat) (parent last_parent : string) :
  String.length parent + 2 <= fuel \/ (parent = last_parent /\ 1 <= fuel) ->
  walk_up h fuel w parent last_parent <> OutOfFuel.
Proof.
  revert parent last_parent.
  induction fuel as [|fuel IH]; intros parent last_parent Hf; [lia |].
  cbn [walk_up]. destruct (String.eqb parent last_parent) eqn:E;
    [discriminate |].
  apply String.eqb_neq in E.
  destruct Hf as [Hf | [Heq _]]; [| congruence].
  destruct (isfile h w _); [discriminate |].
  destruct (listdir h w parent) as [names |]; [| discriminate].
  destruct (no_repo_dir names); [discriminate |].
  apply IH.
  destruct (String.eqb (Posixpath.dirname parent) parent) eqn:Ed.
  - apply String.eqb_eq in Ed. right. split; [exact Ed | lia].
  - apply String.eqb_neq in Ed. apply dirname_shorter in Ed. left. lia.
Qed.

(** the search passes every directory that has no flag file but a
    version-control marker, and ends at the first one with neither *)
Lemma walk_up_ends_at (w : W) (k fuel : nat) (parent last_parent : string)
    (names : list string) :
  k < fuel ->
  parent <> last_parent ->
  (forall j, j < k ->
     isfile h w (Posixpath.join (ancestor j parent) ".clang") = false
     /\ (exists ns, listdir h w (ancestor j parent) = Some ns
                    /\ no_repo_dir ns = false)
     /\ ancestor (S j) parent <> ancestor j parent) ->
  isfile h w (Posixpath.join (ancestor k parent) ".clang") = false ->
  listdir h w (ancestor k parent) = Some names ->
  no_repo_dir names = true ->
  walk_up h fuel w parent last_parent = ProjectRoot (ancestor k parent).
Proof.
  revert fuel parent last_parent.
  induction k as [|k IH]; intros fuel parent last_parent Hf Hne Hpass Hfile Hls Hroot.
  - destruct fuel as [|fuel]; [lia |]. cbn [walk_up].
    apply String.eqb_neq in Hne. rewrite Hne.
    change (ancestor 0 parent) with parent in *.
    rewrite Hfile, Hls, Hroot. reflexivity.
  - destruct fuel as [|fuel]; [lia |]. cbn [walk_up].
    apply String.eqb_neq in Hne. rewrite Hne.
    destruct (Hpass 0 ltac:(lia)) as [H0 [[ns [Hns Hm]] Hd]].
    change (ancestor 0 parent) with parent in *.
    change (ancestor 1 parent) with (Posixpath.dirname parent) in *.
    rewrite H0, Hns, Hm.
    rewrite ancestor_succ_r. apply (IH fuel); [lia | exact Hd | | | |].
    + intros j Hj. destruct (Hpass (S j) ltac:(lia)) as [A [B C]].
      rewrite <- !ancestor_succ_r. tauto.
    + now rewrite <- ancestor_succ_r.
    + now rewrite <- ancestor_succ_r.
    + exact Hroot.
Qed.

Lemma ancestors_shrink (k : nat) (p : string) :
  (forall j, j < k -> ancestor (S j) p <> ancestor j p) ->
  String.length (ancestor k p) + k <= String.length p.
Proof.
  induction k as [|k IH]; intros Hd; [cbn; lia |].
  assert (Hk := Hd k ltac:(lia)).
  assert (IHk := IH (fun j Hj => Hd j ltac:(lia))).
  change (ancestor (S k) p) with (Posixpath.dirname (ancestor k p)) in *.
  apply dirname_shorter in Hk. lia.
Qed.

(** The walk as the loop performs it: it visits the working directory and
    then its ancestors in order and never runs out of steps.  When the
    directories before the [k]-th have no flag file but a version-control
    marker among their children, and the [k]-th has neither, the loop is
    left at the [k]-th, the working directory itself when [k] is 0; the
    absence is memoized and the flags of the host are normalized and
    returned. *)
Theorem get_user_flags_stops_at_first_unmarked
    (ctx : Context) (st : St W) (k : nat) (names : list string) :
  let dir j := ancestor j (cwd ctx) in
  cwd ctx <> EmptyString ->
  (forall j, j < k ->
     isfile h (world st) (Posixpath.join (dir j) ".clang") = false
     /\ (exists ns, listdir h (world st) (dir j) = Some ns
                    /\ no_repo_dir ns = false)
     /\ dir (S j) <> dir j) ->
  isfile h (world st) (Posixpath.join (dir k) ".clang") = false ->
  listdir h (world st) (dir k) = Some names ->
  no_repo_dir names = true ->
  (forall w p, walk_up h (S (S (String.length p))) w p EmptyString <> OutOfFuel)
  /\ walk_up h (S (S (String.length (cwd ctx)))) (world st) (cwd ctx) EmptyString
     = ProjectRoot (dir k)
  /\ (user_flags (self st) !! cwd ctx = None ->
      get_user_flags h ctx st
      = clean_flags h
          (match var_flags ctx with Some f => f | None => FList [] end)
          (Build_St
             (set_user_flags (<[cwd ctx := None]> (user_flags (self st)))
                (self st))
             (world st) (spawned st))).
Proof.
  intros dir Hcwd Hpass Hfile Hls Hroot.
  assert (Hwalk : walk_up h (S (S (String.length (cwd ctx)))) (world st)
                    (cwd ctx) EmptyString = ProjectRoot (dir k)).
  { apply (walk_up_ends_at (world st) k _ (cwd ctx) EmptyString names);
      try assumption.
    assert (Hs := ancestors_shrink k (cwd ctx)
                    (fun j Hj => proj2 (proj2 (Hpass j Hj)))).
    lia. }
  split; [| split; [exact Hwalk |]].
  - intros w p. apply walk_up_fuel. left. lia.
  - intros Hmemo. unfold get_user_flags.
    unfold bind at 1. unfold gets. cbn [self]. rewrite Hmemo.
    unfold bind at 1. unfold ask. rewrite Hwalk.
    unfold bind at 1. unfold modify. reflexivity.
Qed.

End FlagFileWalk.

(** C5, the code at the failing input: [/proj] holds [.git] and [sub],
    and there is no [.clang] file anywhere.  The loop is left where the
    children of the directory hold no marker, under the comment that this
    is an apparent project root: from [/proj/sub] the search ends at
    [/proj/sub] and never visits [/proj]; from [/proj], the project root,
    it goes on to [/].  With a flag file at [/proj], a request in
    [/proj/sub] does not find it and gets the flags of the host. *)
Theorem get_user_flags_stops_below_project_root :
  let h := Sim.host Scenario.stubborn in
  let w := Scenario.repo_world in
  let ctx := Scenario.with_flags
               (Sim.request "ab" "c" "ab" 0 10 "/proj/sub") ["-Wall"] in
  listdir h w "/proj" = Some [".git"; "sub"]
  /\ listdir h w "/proj/sub" = Some []
  /\ walk_up h 11 w "/proj/sub" EmptyString = ProjectRoot "/proj/sub"
  /\ walk_up h 11 w "/proj/sub" EmptyString <> ProjectRoot "/proj"
  /\ walk_up h 7 w "/proj" EmptyString = ProjectRoot "/"
  /\ fst (get_user_flags h ctx (Sim.start w)) = Ok ["-Wall"]
  /\ isfile h Scenario.flagged_sub_world "/proj/.clang" = true
  /\ walk_up h 11 Scenario.flagged_sub_world "/proj/sub" EmptyString
     = ProjectRoot "/proj/sub"
  /\ fst (get_user_flags h ctx (Sim.start Scenario.flagged_sub_world))
     = Ok ["-Wall"]
  /\ fst (parse_clang_flags_file h "/proj/.clang"
            (Sim.start Scenario.flagged_sub_world))
     = Ok ["-I/proj/inc"].
Proof.
  vm_compute. repeat split; discriminate.
Qed.

(** that walk on the simulated host, with the flags of the host as the
    result *)
Lemma get_user_flags_stops_witness :
  let ctx := Scenario.with_flags
               (Sim.request "ab" "c" "ab" 0 10 "/proj/sub") ["-Wall"] in
  walk_up (Sim.host Scenario.stubborn) 11 Scenario.repo_world "/proj/sub"
    EmptyString = ProjectRoot "/proj/sub"
  /\ fst (get_user_flags (Sim.host Scenario.stubborn) ctx
            (Sim.start Scenario.repo_world)) = Ok ["-Wall"].
Proof.
  pose proof (get_user_flags_stops_at_first_unmarked
                (Sim.host Scenario.stubborn)
                (Scenario.with_flags
                   (Sim.request "ab" "c" "ab" 0 10 "/proj/sub") ["-Wall"])
                (Sim.start Scenario.repo_world) 0 []
                ltac:(discriminate) ltac:(intros j Hj; lia)
                eq_refl eq_refl eq_refl) as [_ [Hw Hg]].
  split; [exact Hw |].
  rewrite (Hg eq_refl). reflexivity.
Defined.

(** ** The build-database index *)

(** C6, the code at the failing input: a database of two records, the
    first with [-I inc_a], the second with [-DB=1] alone.  The list of
    pairs is created once, before the loop over the records, so the entry
    of the second file starts with the flag of the first. *)
Theorem find_db_flags_entry_holds_earlier_records :
  let h := Sim.host Scenario.accepting in
  let ctx := Sim.request "ab" "c" "ab" 0 10 "/p" in
  scan_command "/p" "cc -DB=1 -c b.c" [] = [("-D", "B=1")]
  /\ (exists es,
        db_entries "/p" Scenario.two_records [] ∅ = Some es
        /\ es !! "/p/a" = Some ["-I"; "/p/inc_a"]
        /\ es !! "/p/b" = Some ["-I"; "/p/inc_a"; "-D"; "B=1"])
  /\ fst (find_db_flags h
            {| input := input ctx; filetype := filetype ctx;
               complete_str := complete_str ctx;
               complete_position := complete_position ctx;
               line := line ctx; cwd := cwd ctx; bufname := "b.c";
               clang2_pattern := clang2_pattern ctx; event := event ctx;
               auto_complete_start_length := auto_complete_start_length ctx;
               var_flags := var_flags ctx; var_std := var_std ctx |}
            (Sim.start Scenario.db_world))
     = Ok (Some ["-I"; "/p/inc_a"; "-D"; "B=1"]).
Proof.
  cbv zeta. split; [vm_compute; reflexivity |]. split.
  - eexists. split; [reflexivity |]. split; vm_compute; reflexivity.
  - vm_compute. reflexivity.
Qed.

(** ** Flag normalization *)

Section Normalization.

Context {W : Type} (h : Host W).

Lemma clean_tokens_out (flags out : list string)
    (dv : option (option (string * Z))) :
  fst (clean_tokens h flags out dv)
  = out ++ map (expand_home h) (kept_tokens h flags).
Proof.
  unfold kept_tokens. revert out dv.
  induction flags as [|flag rest IH]; intros out dv; cbn [clean_tokens map List.filter].
  - now rewrite app_nil_r.
  - destruct (Str.startswith "-darwin=" (expandvars h flag)); cbn [negb].
    + apply IH.
    + rewrite IH. cbn [map]. now rewrite <- app_assoc.
Qed.

Lemma clean_flags_tokens (flags : list string) (st : St W) :
  fst (clean_flags h (FList flags) st)
  = Ok (map (expand_home h) (kept_tokens h flags)).
Proof.
  unfold clean_flags, bind, ret.
  pose proof (clean_tokens_out flags [] None) as E.
  destruct (clean_tokens h flags [] None) as [out [v |]];
    cbn [fst] in E; subst out; reflexivity.
Qed.

(** C8, amended. [clean_flags] expands environment variables in every
    token.  After that, and with the [-darwin=] tokens dropped, the home
    marker is replaced, wherever it occurs in the token, in the tokens
    that start with it and in the tokens that contain it and start with
    [-I], [-D], [-F] or a flag of the path-bearing grammar; a token that
    neither starts with the marker nor matches the grammar passes with its
    markers in place. *)
Theorem clean_flags_expands_every_token (flags : list string) (st : St W) :
  fst (clean_flags h (FList flags) st)
  = Ok (map (expand_home h)
          (List.filter (fun flag => negb (Str.startswith "-darwin=" flag))
             (map (expandvars h) flags)))
  /\ forall flag,
       (Str.startswith "~" flag = true ->
        expand_home h flag = Str.replace_chr "~" (home h) flag)
       /\ (Str.contains "~" flag = true ->
           rmatch path_flag flag <> None ->
           expand_home h flag = Str.replace_chr "~" (home h) flag)
       /\ (Str.startswith "~" flag = false ->
           rmatch path_flag flag = None ->
           expand_home h flag = flag).
Proof.
  split; [apply clean_flags_tokens |].
  intros flag. unfold expand_home, needs_home. repeat split.
  - intros ->. reflexivity.
  - intros -> Hm. destruct (rmatch path_flag flag); [| congruence].
    now rewrite orb_true_r.
  - intros -> ->. now rewrite andb_false_r.
Qed.

End Normalization.

(** C8, counterexample: neither [$FOO] nor [~/x] matches [-I], [-D], [-F]
    or the path-bearing grammar; with [FOO=bar] in the environment both
    are substituted. *)
Lemma clean_flags_substitution_counterexample :
  let h := Sim.host Scenario.accepting in
  rmatch path_flag "$FOO" = None
  /\ rmatch path_flag "~/x" = None
  /\ fst (clean_flags h (FList ["$FOO"; "~/x"; "-Wl,~z"])
            (Sim.start Scenario.plain_world))
     = Ok ["bar"; "/home/user/x"; "-Wl,~z"].
Proof.
  vm_compute. repeat split.
Qed.

(** C8, witness: tokens of each kind. *)
Lemma clean_flags_expands_witness :
  fst (clean_flags (Sim.host Scenario.accepting)
         (FList ["$FOO"; "~/x"; "-I~/y"; "-Wl,~z"; "-darwin=10.2"])
         (Sim.start Scenario.plain_world))
  = Ok ["bar"; "/home/user/x"; "-I/home/user/y"; "-Wl,~z"]
  /\ expand_home (Sim.host Scenario.accepting) "-Wl,~z" = "-Wl,~z".
Proof.
  pose proof (clean_flags_expands_every_token (Sim.host Scenario.accepting)
                ["$FOO"; "~/x"; "-I~/y"; "-Wl,~z"; "-darwin=10.2"]
                (Sim.start Scenario.plain_world)) as [E P].
  split; [rewrite E; reflexivity |].
  exact (proj2 (proj2 (P "-Wl,~z")) eq_refl eq_refl).
Defined.

(** ** Precompiled headers *)

Section PrecompiledHeader.

Context {W : Type} (h : Host W).

(** [call_clang] returns, and the first command it runs is [clang] with
    the given arguments less the known bad ones *)
Lemma call_clang_runs (src cmd : list string) (ret_stderr : bool) (st : St W) :
  exists out more,
    fst (call_clang h src cmd ret_stderr st) = Ok out
    /\ spawned (snd (call_clang h src cmd ret_stderr st))
       = spawned st
         ++ ("clang" :: List.filter
                          (fun arg => negb (Str.mem arg (bad_flags (self st))))
                          cmd)
         :: more.
Proof.
  rewrite call_clang_unfold.
  set (stdin := Str.join newline src).
  set (cmd0 := "clang" :: List.filter _ cmd).
  destruct (call_clang_loop_returns h 5 stdin cmd0 EmptyString EmptyString st)
    as [oe Hoe].
  destruct (call_clang_loop_first_attempt h 4 stdin cmd0 EmptyString
              EmptyString st) as [more Hmore].
  destruct (call_clang_loop h 5 stdin cmd0 EmptyString EmptyString st)
    as [[oe' | e] st']; cbn [fst snd] in *; [| discriminate Hoe].
  eexists. exists more. split; [reflexivity | exact Hmore].
Qed.

Lemma pch_loop_step (pch : string) (rest cmd flags : list string) (st : St W) :
  let generated := pch_generated h cmd flags pch in
  let st1 := pch_visit h cmd flags pch st in
  pch_loop h (pch :: rest) cmd flags st
  = if path_exists h (world st1) generated
    then (Ok (cmd ++ ["-include-pch"; generated]), st1)
    else pch_loop h rest cmd flags st1.
Proof.
  cbv zeta. unfold pch_visit. cbn [pch_loop].
  unfold bind at 1. unfold ask at 1. cbn [fst snd].
  destruct (pch_stale h (world st) _ pch).
  - destruct (call_clang_runs [] (pch_emit_args cmd flags pch
                                    (pch_generated h cmd flags pch)) false st)
      as [out [more [Hout _]]].
    unfold bind at 1. unfold bind at 1.
    destruct (call_clang h [] _ false st) as [[out' | e] st'];
      cbn [fst snd] in *; [| discriminate Hout].
    unfold ret at 1. unfold bind, ask. cbn [fst snd].
    destruct (path_exists h (world st') _); reflexivity.
  - unfold bind at 1. unfold ret at 1. unfold bind, ask. cbn [fst snd].
    destruct (path_exists h (world st) _); reflexivity.
Qed.

Lemma app_cons_neq {A} (l more : list A) (x : A) : l ++ x :: more <> l.
Proof.
  intros E. apply (f_equal (@length A)) in E.
  rewrite length_app in E. cbn in E. lia.
Qed.

(** the loop applies at most one header, one whose artifact exists when
    the loop ends *)
Lemma pch_loop_at_most_one (pchs cmd flags : list string) (st : St W) :
  exists st',
    pch_loop h pchs cmd flags st = (Ok cmd, st')
    \/ exists pch,
         In pch pchs
         /\ path_exists h (world st') (pch_generated h cmd flags pch) = true
         /\ pch_loop h pchs cmd flags st
            = (Ok (cmd ++ ["-include-pch"; pch_generated h cmd flags pch]), st').
Proof.
  revert st. induction pchs as [|pch rest IH]; intros st.
  - exists st. left. reflexivity.
  - rewrite pch_loop_step. cbv zeta.
    destruct (path_exists h (world (pch_visit h cmd flags pch st)) _) eqn:E.
    + eexists. right. exists pch. split; [now left |].
      split; [exact E | reflexivity].
    + destruct (IH (pch_visit h cmd flags pch st)) as [st' [Hn | [p [Hp [He Hl]]]]].
      * exists st'. now left.
      * exists st'. right. exists p. split; [now right | tauto].
Qed.

End PrecompiledHeader.

(** ** Reuse of cached completions *)

Section Reuse.

Context {W : Type} (h : Host W).

Lemma quiet_ret {A} (a : A) : quiet (@ret W A a).
Proof. intros st. reflexivity. Qed.

Lemma quiet_raise {A} (e : exn) : quiet (@raise W A e).
Proof. intros st. reflexivity. Qed.

Lemma quiet_gets {A} (f : Source -> A) : quiet (@gets W A f).
Proof. intros st. reflexivity. Qed.

Lemma quiet_modify (f : Source -> Source) : quiet (@modify W f).
Proof. intros st. reflexivity. Qed.

Lemma quiet_ask {A} (f : W -> A) : quiet (ask f).
Proof. intros st. reflexivity. Qed.

Lemma quiet_act (f : W -> W) : quiet (act f).
Proof. intros st. reflexivity. Qed.

Lemma quiet_bind {A B} (m : M W A) (k : A -> M W B) :
  quiet m -> (forall a, quiet (k a)) -> quiet (bind m k).
Proof.
  intros Hm Hk st. unfold bind. specialize (Hm st).
  destruct (m st) as [[a | e] st']; cbn [snd] in *.
  - rewrite (Hk a st'). exact Hm.
  - exact Hm.
Qed.

Ltac quiet_step :=
  first
    [ apply quiet_ret | apply quiet_raise | apply quiet_gets
    | apply quiet_modify | apply quiet_ask | apply quiet_act
    | apply quiet_bind; [| intros ?]
    | match goal with
      | |- quiet (match ?x with _ => _ end) => destruct x
      end ].

Lemma clean_flags_quiet (flags : flags_arg) : quiet (clean_flags h flags).
Proof. unfold clean_flags. repeat quiet_step. Qed.

Lemma parse_clang_flags_file_quiet (filename : string) :
  quiet (parse_clang_flags_file h filename).
Proof.
  unfold parse_clang_flags_file.
  repeat first [apply clean_flags_quiet | quiet_step].
Qed.

Lemma get_user_flags_quiet (ctx : Context) : quiet (get_user_flags h ctx).
Proof.
  unfold get_user_flags.
  repeat first [apply clean_flags_quiet | apply parse_clang_flags_file_quiet
               | quiet_step].
Qed.

Lemma apply_darwin_flags_quiet (version : string * Z) (flags : list string) :
  quiet (apply_darwin_flags h version flags).
Proof. unfold apply_darwin_flags. repeat quiet_step. Qed.

(** running the monad, one step at a time *)
Lemma bind_eq {A B} (m : M W A) (k : A -> M W B) (st : St W) :
  bind m k st
  = match m st with
    | (Ok a, st') => k a st'
    | (Raise e, st') => (Raise e, st')
    end.
Proof. reflexivity. Qed.

Lemma ret_eq {A} (a : A) (st : St W) : ret a st = (Ok a, st).
Proof. reflexivity. Qed.

Lemma gets_eq {A} (f : Source -> A) (st : St W) :
  gets f st = (Ok (f (self st)), st).
Proof. reflexivity. Qed.

Lemma ask_eq {A} (f : W -> A) (st : St W) :
  ask f st = (Ok (f (world st)), st).
Proof. reflexivity. Qed.

Lemma modify_eq (f : Source -> Source) (st : St W) :
  modify f st = (Ok tt, Build_St (f (self st)) (world st) (spawned st)).
Proof. reflexivity. Qed.

Ltac run :=
  repeat (first [ rewrite bind_eq | rewrite ret_eq | rewrite gets_eq
                | rewrite ask_eq | rewrite modify_eq ];
          cbv beta iota).

(** the compiler path either raises or records its result in [self.last] *)
Lemma complete_with_clang_records (ctx : Context) (flags src : list string)
    (lang : string) (st : St W) :
  let r := complete_with_clang h ctx flags src lang st in
  (exists e, fst r = Raise e)
  \/ exists cs, fst r = Ok cs /\ last (self (snd r)) = recorded ctx cs.
Proof.
  cbv zeta. unfold complete_with_clang. run.
  destruct (get_clang_flags h lang st) as [[d | e] s1];
    [| left; eexists; reflexivity].
  run. destruct (find_db_flags h ctx s1) as [[db | e] s2];
    [| left; eexists; reflexivity].
  run. destruct (generate_pch h ctx _ _ s2) as [[cf | e] s3];
    [| left; eexists; reflexivity].
  run. destruct (call_clang h src _ false s3) as [[items | e] s4];
    [| left; eexists; reflexivity].
  right. eexists. run.
  destruct (scope_pos ctx); run; split; reflexivity.
Qed.

(** the flag lookup of [resolve_and_complete] runs no process *)
Lemma flags_lookup_quiet (ctx : Context) (k : list string -> M W (list Completion)) :
  (forall flags, quiet (k flags)) ->
  quiet (bind (get_user_flags h ctx)
           (fun flags =>
              bind (gets darwin_version)
                (fun dv =>
                   bind (match dv with
                         | Some version => apply_darwin_flags h version flags
                         | None => ret flags
                         end) k))).
Proof.
  intros Hk.
  apply quiet_bind; [apply get_user_flags_quiet | intros flags].
  apply quiet_bind; [apply quiet_gets | intros dv].
  apply quiet_bind; [| exact Hk].
  destruct dv; [apply apply_darwin_flags_quiet | apply quiet_ret].
Qed.

Lemma gather_candidates_eq (ctx : Context) (st : St W) :
  gather_candidates h ctx st
  = if too_short ctx then (Ok [], entered st)
    else if same_position (last (self st)) ctx
    then (Ok (cached_completions (last (self st))), entered st)
    else if scope_hit (last (self st)) (scope_completions (self st)) ctx
    then (Ok (scope_completions (self st)), entered st)
    else resolve_and_complete h ctx (entered st).
Proof.
  unfold gather_candidates. rewrite bind_eq, modify_eq. cbv beta iota.
  fold (entered st).
  destruct (too_short ctx); [reflexivity |].
  rewrite bind_eq, gets_eq. cbv beta iota.
  change (last (self (entered st))) with (last (self st)).
  destruct (same_position (last (self st)) ctx); [reflexivity |].
  rewrite bind_eq, gets_eq. cbv beta iota.
  change (scope_completions (self (entered st)))
    with (scope_completions (self st)).
  destruct (scope_hit _ _ ctx); reflexivity.
Qed.

(** without a language, resolution runs no process and returns the empty
    list unless it raises *)
Lemma resolve_unsupported (ctx : Context) (st : St W) :
  lang_names (filetype ctx) = None ->
  spawned (snd (resolve_and_complete h ctx st)) = spawned st
  /\ (fst (resolve_and_complete h ctx st) = Ok []
      \/ exists e, fst (resolve_and_complete h ctx st) = Raise e).
Proof.
  intros Hlang. split.
  - apply flags_lookup_quiet. intros flags.
    apply quiet_bind; [apply quiet_ask | intros src].
    rewrite Hlang. apply quiet_ret.
  - unfold resolve_and_complete. rewrite Hlang. run.
    destruct (get_user_flags h ctx st) as [[flags | e] s1];
      [| right; eexists; reflexivity].
    run.
    destruct (match darwin_version (self s1) with
              | Some version => apply_darwin_flags h version flags
              | None => ret flags
              end s1) as [[flags' | e] s2];
      [| right; eexists; reflexivity].
    run. left. reflexivity.
Qed.

(** resolution runs no process, or raises, or records its result *)
Lemma resolve_cases (ctx : Context) (st : St W) :
  let r := resolve_and_complete h ctx st in
  spawned (snd r) = spawned st
  \/ (exists e, fst r = Raise e)
  \/ exists cs, fst r = Ok cs /\ last (self (snd r)) = recorded ctx cs.
Proof.
  cbv zeta. destruct (lang_names (filetype ctx)) as [lang |] eqn:Hlang.
  - right. unfold resolve_and_complete. rewrite Hlang. run.
    destruct (get_user_flags h ctx st) as [[flags | e] s1];
      [| left; eexists; reflexivity].
    run.
    destruct (match darwin_version (self s1) with
              | Some version => apply_darwin_flags h version flags
              | None => ret flags
              end s1) as [[flags' | e] s2];
      [| left; eexists; reflexivity].
    run. apply complete_with_clang_records.
  - left. now apply resolve_unsupported.
Qed.

(** a request runs no process, or raises, or records its result *)
Lemma gather_candidates_cases (ctx : Context) (st : St W) :
  let r := gather_candidates h ctx st in
  spawned (snd r) = spawned st
  \/ (exists e, fst r = Raise e)
  \/ exists cs, fst r = Ok cs /\ last (self (snd r)) = recorded ctx cs.
Proof.
  cbv zeta. rewrite gather_candidates_eq.
  destruct (too_short ctx); [left; reflexivity |].
  destruct (same_position _ ctx); [left; reflexivity |].
  destruct (scope_hit _ _ ctx); [left; reflexivity |].
  apply (resolve_cases ctx (entered st)).
Qed.

(** C7, amended. After a request that ran the compiler and returned [cs],
    the next request on the same line and completion column runs no
    compiler; it returns [cs] again, unless it is turned away for its
    length: a request whose input has no length exemption and whose
    [complete_str] is shorter than the start length returns the empty list
    before the cache is looked at. *)
Theorem gather_candidates_reuses_same_position
    (ctx1 ctx2 : Context) (st : St W) (cs : list Completion) :
  let st1 := snd (gather_candidates h ctx1 st) in
  fst (gather_candidates h ctx1 st) = Ok cs ->
  spawned st1 <> spawned st ->
  line ctx2 = line ctx1 ->
  complete_position ctx2 = complete_position ctx1 ->
  (if too_short ctx2
   then fst (gather_candidates h ctx2 st1) = Ok []
   else fst (gather_candidates h ctx2 st1) = Ok cs)
  /\ spawned (snd (gather_candidates h ctx2 st1)) = spawned st1.
Proof.
  intros st1 Hcs Hran Hl Hc.
  destruct (gather_candidates_cases ctx1 st) as [Hq | [[e He] | [cs' [Hok Hlast]]]].
  - elim Hran. exact Hq.
  - rewrite He in Hcs. discriminate.
  - rewrite Hok in Hcs. injection Hcs as ->. fold st1 in Hlast.
    rewrite gather_candidates_eq.
    destruct (too_short ctx2); [split; reflexivity |].
    assert (Hp : same_position (last (self st1)) ctx2 = true).
    { rewrite Hlast. unfold same_position, same_line, recorded.
      cbn [last_line last_col]. rewrite Hl, Hc, !Z.eqb_refl. reflexivity. }
    rewrite Hp, Hlast. split; reflexivity.
Qed.

(** C10, amended. A request whose filetype is none of the four supported
    ones never runs the compiler.  Turned away for its length it returns
    the empty list; on the line and column that [self.last] records it
    returns the completions cached there; on a scope position with scope
    completions at hand it returns those; otherwise it returns the empty
    list, unless the lookup of the user flags raises. *)
Theorem gather_candidates_unsupported_filetype (ctx : Context) (st : St W) :
  lang_names (filetype ctx) = None ->
  let r := gather_candidates h ctx st in
  spawned (snd r) = spawned st
  /\ if too_short ctx then fst r = Ok []
     else if same_position (last (self st)) ctx
     then fst r = Ok (cached_completions (last (self st)))
     else if scope_hit (last (self st)) (scope_completions (self st)) ctx
     then fst r = Ok (scope_completions (self st))
     else fst r = Ok [] \/ exists e, fst r = Raise e.
Proof.
  intros Hlang r. subst r. rewrite gather_candidates_eq.
  destruct (too_short ctx); [split; reflexivity |].
  destruct (same_position _ ctx); [split; reflexivity |].
  destruct (scope_hit _ _ ctx); [split; reflexivity |].
  apply (resolve_unsupported ctx (entered st) Hlang).
Qed.

End Reuse.

(** *** Requests on the simulated host *)

(** C7, counterexample: a request at line 10, column 0 runs the compiler
    and returns one completion; the next request, on the same line and
    column with one character of input left, returns the empty list. *)
Lemma gather_candidates_reuse_counterexample :
  let h := Sim.host Scenario.verbose in
  let ctx1 := Sim.request "ab" "c" "ab" 0 10 "/src" in
  let ctx2 := Sim.request "a" "c" "a" 0 10 "/src" in
  let st1 := snd (gather_candidates h ctx1 (Sim.start Scenario.plain_world)) in
  fst (gather_candidates h ctx1 (Sim.start Scenario.plain_world))
  = Ok [Scenario.x_item]
  /\ length (spawned st1) = 2
  /\ line ctx2 = line ctx1
  /\ complete_position ctx2 = complete_position ctx1
  /\ fst (gather_candidates h ctx2 st1) = Ok []
  /\ fst (gather_candidates h ctx2 st1) <> Ok [Scenario.x_item].
Proof.
  vm_compute. repeat split; discriminate.
Qed.

(** C7, witness: the next request with a character more of input. *)
Lemma gather_candidates_reuse_witness :
  let h := Sim.host Scenario.verbose in
  let ctx1 := Sim.request "ab" "c" "ab" 0 10 "/src" in
  let ctx2 := Sim.request "abc" "c" "abc" 0 10 "/src" in
  let st1 := snd (gather_candidates h ctx1 (Sim.start Scenario.plain_world)) in
  fst (gather_candidates h ctx2 st1) = Ok [Scenario.x_item]
  /\ spawned (snd (gather_candidates h ctx2 st1)) = spawned st1.
Proof.
  exact (gather_candidates_reuses_same_position (Sim.host Scenario.verbose)
           (Sim.request "ab" "c" "ab" 0 10 "/src")
           (Sim.request "abc" "c" "abc" 0 10 "/src")
           (Sim.start Scenario.plain_world) [Scenario.x_item]
           eq_refl ltac:(vm_compute; discriminate) eq_refl eq_refl).
Defined.

(** C10, counterexample: after a C request at line 10, column 0, a
    request with filetype [python] on the same line and column returns the
    cached completion. *)
Lemma gather_candidates_unsupported_counterexample :
  let h := Sim.host Scenario.verbose in
  let st1 := snd (gather_candidates h (Sim.request "ab" "c" "ab" 0 10 "/src")
                    (Sim.start Scenario.plain_world)) in
  let ctx := Sim.request "ab" "python" "ab" 0 10 "/src" in
  lang_names (filetype ctx) = None
  /\ fst (gather_candidates h ctx st1) = Ok [Scenario.x_item]
  /\ fst (gather_candidates h ctx st1) <> Ok [].
Proof.
  vm_compute. repeat split; discriminate.
Qed.

(** C10, witness: the same request to a fresh plugin instance. *)
Lemma gather_candidates_unsupported_witness :
  let r := gather_candidates (Sim.host Scenario.verbose)
             (Sim.request "ab" "python" "ab" 0 10 "/src")
             (Sim.start Scenario.plain_world) in
  spawned (snd r) = [] /\ (fst r = Ok [] \/ exists e, fst r = Raise e).
Proof.
  exact (gather_candidates_unsupported_filetype (Sim.host Scenario.verbose)
           (Sim.request "ab" "python" "ab" 0 10 "/src")
           (Sim.start Scenario.plain_world) eq_refl).
Defined.

(** the staleness rule on the simulated host: an artifact older than the
    prefix header is regenerated by one run of the compiler, a newer one is
    used as it is; either way the one include argument is appended *)
Example generate_pch_staleness :
  let h := Sim.host Scenario.verbose in
  let ctx := Sim.request "ab" "c" "ab" 0 10 "/src" in
  let cmd := ["-x"; "c"; "-std=c11"] in
  let old := generate_pch h ctx cmd [] (Sim.start (Scenario.pch_world 1)) in
  let new := generate_pch h ctx cmd [] (Sim.start (Scenario.pch_world 9)) in
  spawned (snd old)
  = [["clang"; "-cc1"; "-x"; "c"; "-std=c11"; Scenario.prefix_header;
      "-emit-pch"; "-o"; Scenario.pch_artifact]]
  /\ fst old = Ok (cmd ++ ["-include-pch"; Scenario.pch_artifact], [])
  /\ spawned (snd new) = []
  /\ fst new = Ok (cmd ++ ["-include-pch"; Scenario.pch_artifact], []).
Proof.
  vm_compute. repeat split.
Qed.

(** * Further properties *)

(** ** [call_clang] beyond the exhausted loop *)

Section InvokerBounds.

Context {W : Type} (h : Host W).

(** the command of the first attempt of [call_clang] *)
Definition first_command (cmd : list string) (st : St W) : list string :=
  "clang" :: List.filter
               (fun arg => negb (Str.mem arg (bad_flags (self st)))) cmd.

(** A compiler that accepts the first attempt is run once: [call_clang]
    returns the lines of the requested stream of that run and leaves the
    plugin instance as it was. *)
Theorem call_clang_accepted_at_once (src cmd : list string)
    (ret_stderr : bool) (st : St W) :
  let r := popen h (world st) (first_command cmd st) (Str.join newline src) in
  Str.contains "unknown argument" (snd (snd r)) = false ->
  call_clang h src cmd ret_stderr st
  = (Ok (Str.split_chr "010"
           (if ret_stderr then snd (snd r) else fst (snd r))),
     Build_St (self st) (fst r) (spawned st ++ [first_command cmd st])).
Proof.
  intros r Hc. rewrite call_clang_unfold. fold (first_command cmd st).
  rewrite (call_clang_loop_done h 4 (Str.join newline src)
             (first_command cmd st) EmptyString EmptyString st Hc).
  reflexivity.
Qed.

(** the loop changes no attribute of the plugin but [bad_flags] *)
Lemma call_clang_loop_self (retry : nat) (stdin : string)
    (cmd : list string) (so se : string) (st : St W) :
  let st' := snd (call_clang_loop h retry stdin cmd so se st) in
  self st' = set_bad_flags (bad_flags (self st')) (self st).
Proof.
  revert cmd so se st. induction retry as [|retry IH]; intros cmd so se st.
  - cbn. destruct (self st). reflexivity.
  - destruct (Str.contains "unknown argument"
                (snd (snd (popen h (world st) cmd stdin)))) eqn:Hc.
    + rewrite (call_clang_loop_retry h retry stdin cmd so se st Hc).
      cbv zeta. rewrite IH at 1. reflexivity.
    + rewrite (call_clang_loop_done h retry stdin cmd so se st Hc).
      cbn. destruct (self st). reflexivity.
Qed.




(** the effect of [call_clang] for a compiler that runs and answers in
    text, as [popen] has it *)
Lemma call_clang_effect (src cmd : list string) (ret_stderr : bool)
    (st : St W) :
  let r := call_clang h src cmd ret_stderr st in
  (exists line more, fst r = Ok (line :: more))
  /\ (exists attempts,
        spawned (snd r) = spawned st ++ first_command cmd st :: attempts
        /\ length attempts <= 4
        /\ forall c x, In c (first_command cmd st :: attempts) -> In x c ->
             x = "clang" \/ (In x cmd /\ ~ In x (bad_flags (self st))))
  /\ (forall a, In a (bad_flags (self st)) -> In a (bad_flags (self (snd r))))
  /\ self (snd r) = set_bad_flags (bad_flags (self (snd r))) (self st).
Proof.
  cbv zeta. rewrite call_clang_unfold. fold (first_command cmd st).
  set (stdin := Str.join newline src).
  destruct (call_clang_loop_returns h 5 stdin (first_command cmd st)
              EmptyString EmptyString st) as [oe Hoe].
  destruct (call_clang_loop_invariant h 5 stdin (first_command cmd st)
              EmptyString EmptyString st) as [Hmono [att [Hs [Hl Hincl]]]].
  destruct (call_clang_loop_first_attempt h 4 stdin (first_command cmd st)
              EmptyString EmptyString st) as [more Hmore].
  pose proof (call_clang_loop_self 5 stdin (first_command cmd st)
                EmptyString EmptyString st) as Hself.
  destruct (call_clang_loop h 5 stdin (first_command cmd st)
              EmptyString EmptyString st) as [[oe' | e] st'];
    cbn [fst snd] in *; [| discriminate Hoe].
  split.
  { assert (Hne : forall s, exists line rest, Str.split_chr "010" s = line :: rest).
    { intros s. induction s as [|a s [line [rest IHs]]]; cbn.
      - eexists. eexists. reflexivity.
      - destruct (Ascii.eqb a "010"); [eexists; eexists; reflexivity |].
        rewrite IHs. eexists. eexists. reflexivity. }
    destruct (Hne (if ret_stderr then snd oe' else fst oe')) as [l [m E]].
    exists l, m. now rewrite E. }
  split; [| split; [exact Hmono | exact Hself]].
  exists more. split; [exact Hmore |].
  assert (Ea : att = first_command cmd st :: more).
  { rewrite Hmore in Hs. now apply app_inv_head in Hs. }
  subst att. split; [cbn in Hl; lia |].
  intros c x Hc Hx. specialize (Hincl c x Hc Hx).
  destruct Hincl as [<- | Hf]; [now left | right].
  apply filter_In in Hf. destruct Hf as [Hf1 Hf2]. split; [exact Hf1 |].
  intros Hbad. apply mem_In in Hbad. rewrite Hbad in Hf2. discriminate.
Qed.

(** A call of [call_clang] that returns has run the compiler between one
    and five times and returns at least one line.  Every command it ran
    is made of the program name and of given arguments that were not
    known to be bad; [bad_flags] has lost no element, and no other
    attribute of the plugin has changed. *)
Theorem call_clang_bounded (src cmd : list string) (ret_stderr : bool)
    (st st' : St W) (out : list string) :
  call_clang h src cmd ret_stderr st = (Ok out, st') ->
  out <> []
  /\ (exists attempts,
        spawned st' = spawned st ++ first_command cmd st :: attempts
        /\ length attempts <= 4
        /\ forall c x, In c (first_command cmd st :: attempts) -> In x c ->
             x = "clang" \/ (In x cmd /\ ~ In x (bad_flags (self st))))
  /\ (forall a, In a (bad_flags (self st)) -> In a (bad_flags (self st')))
  /\ self st' = set_bad_flags (bad_flags (self st')) (self st).
Proof.
  intros E.
  destruct (call_clang_effect src cmd ret_stderr st)
    as [[line [more Hout]] [Hatt [Hmono Hself]]].
  rewrite E in *. cbn [fst snd] in *.
  injection Hout as ->. split; [discriminate | tauto].
Qed.


End InvokerBounds.

(** witness: the accepting compiler of the scenarios *)
Lemma call_clang_accepted_at_once_witness :
  fst (call_clang (Sim.host Scenario.verbose) ["int x;"] ["-x"; "c"] false
         (Sim.start Scenario.plain_world))
  = Ok ["COMPLETION: x : [#int#]x"].
Proof.
  rewrite (call_clang_accepted_at_once (Sim.host Scenario.verbose)
             ["int x;"] ["-x"; "c"] false (Sim.start Scenario.plain_world)
             eq_refl).
  reflexivity.
Defined.


(** ** The memoized lookups *)

Ltac run_m :=
  repeat (first [ rewrite bind_eq | rewrite ret_eq | rewrite gets_eq
                | rewrite ask_eq | rewrite modify_eq ];
          cbv beta iota).

Section Memo.

Context {W : Type} (h : Host W).

(** the tokens [clean_flags] works on *)
Definition tokens_of (flags : flags_arg) : option (list string) :=
  match flags with
  | FStr s => shlex_split h s
  | FList l => Some l
  end.

(** setting [darwin_version], when a [-darwin=] token asks for it *)
Definition with_darwin (dv : option (option (string * Z))) (st : St W) : St W :=
  match dv with
  | Some v => Build_St (set_darwin_version v (self st)) (world st) (spawned st)
  | None => st
  end.

Lemma clean_flags_eq (flags : flags_arg) (st : St W) :
  clean_flags h flags st
  = match tokens_of flags with
    | None => (Raise ValueError, st)
    | Some tokens =>
        (Ok (fst (clean_tokens h tokens [] None)),
         with_darwin (snd (clean_tokens h tokens [] None)) st)
    end.
Proof.
  unfold clean_flags, tokens_of. rewrite bind_eq.
  destruct flags as [s | l].
  - destruct (shlex_split h s) as [tokens |]; [| reflexivity].
    rewrite ret_eq. cbv beta iota.
    destruct (clean_tokens h tokens [] None) as [out [v |]]; reflexivity.
  - rewrite ret_eq. cbv beta iota.
    destruct (clean_tokens h l [] None) as [out [v |]]; reflexivity.
Qed.

Lemma with_darwin_twice (dv : option (option (string * Z))) (st : St W) :
  with_darwin dv (with_darwin dv st) = with_darwin dv st.
Proof. destruct dv; reflexivity. Qed.

Lemma with_darwin_keeps (dv : option (option (string * Z))) (st : St W) :
  world (with_darwin dv st) = world st
  /\ spawned (with_darwin dv st) = spawned st
  /\ user_flags (self (with_darwin dv st)) = user_flags (self st)
  /\ clang_flags (self (with_darwin dv st)) = clang_flags (self st)
  /\ db_files (self (with_darwin dv st)) = db_files (self st)
  /\ bad_flags (self (with_darwin dv st)) = bad_flags (self st).
Proof. destruct dv; cbn; tauto. Qed.

(** normalizing the same flags again gives the same tokens and changes
    nothing more *)
Lemma clean_flags_again (flags : flags_arg) (st st' : St W)
    (out : list string) :
  clean_flags h flags st = (Ok out, st') ->
  clean_flags h flags st' = (Ok out, st')
  /\ world st' = world st
  /\ user_flags (self st') = user_flags (self st).
Proof.
  rewrite !clean_flags_eq.
  destruct (tokens_of flags) as [tokens |]; [| discriminate].
  intros E. injection E as <- <-. rewrite with_darwin_twice.
  destruct (with_darwin_keeps (snd (clean_tokens h tokens [] None)) st)
    as [? [? [? _]]].
  tauto.
Qed.

Lemma parse_clang_flags_file_again (filename : string) (st st' : St W)
    (out : list string) :
  parse_clang_flags_file h filename st = (Ok out, st') ->
  parse_clang_flags_file h filename st' = (Ok out, st')
  /\ world st' = world st
  /\ user_flags (self st') = user_flags (self st).
Proof.
  unfold parse_clang_flags_file. rewrite !bind_eq, !ask_eq. cbv beta iota.
  destruct (read_text h (world st) filename) as [text |] eqn:E.
  - intros Hc. destruct (clean_flags_again _ _ _ _ Hc) as [H1 [H2 H3]].
    rewrite H2, E. tauto.
  - rewrite ret_eq. intros Hr. injection Hr as <- <-. rewrite E, ret_eq. tauto.
Qed.

Lemma append_nonempty (a b : string) : b <> EmptyString -> a +:+ b <> EmptyString.
Proof. destruct a; [cbn; tauto | discriminate]. Qed.

Lemma join_clang_nonempty (p : string) :
  Posixpath.join p ".clang" <> EmptyString.
Proof.
  unfold Posixpath.join. cbn [Str.startswith String.prefix].
  destruct (Ascii.ascii_dec "/" "."); [discriminate |].
  destruct (_ || _); apply append_nonempty; [discriminate |].
  apply append_nonempty. discriminate.
Qed.

Lemma walk_up_found (fuel : nat) (w : W) (parent last_parent file : string) :
  walk_up h fuel w parent last_parent = FoundFile file ->
  file <> EmptyString /\ isfile h w file = true.
Proof.
  revert parent last_parent. induction fuel as [|fuel IH];
    intros parent last_parent; cbn [walk_up]; [discriminate |].
  destruct (String.eqb parent last_parent); [discriminate |].
  destruct (isfile h w (Posixpath.join parent ".clang")) eqn:E.
  - intros Hf. injection Hf as <-. split; [apply join_clang_nonempty | exact E].
  - destruct (listdir h w parent) as [names |]; [| discriminate].
    destruct (no_repo_dir names); [discriminate | apply IH].
Qed.

(** A lookup of the user flags that returns is remembered for its working
    directory: the same request, once more, gives the same flags and
    changes nothing; no lookup changes the world. *)
Theorem get_user_flags_memoized (ctx : Context) (st st' : St W)
    (flags : list string) :
  get_user_flags h ctx st = (Ok flags, st') ->
  get_user_flags h ctx st' = (Ok flags, st')
  /\ user_flags (self st') !! cwd ctx <> None
  /\ world st' = world st.
Proof.
  unfold get_user_flags. rewrite !bind_eq, !gets_eq. cbv beta iota.
  destruct (user_flags (self st) !! cwd ctx) as [[file |] |] eqn:Hm.
  - destruct (String.eqb file EmptyString) eqn:Ef; intros Hr.
    + destruct (clean_flags_again _ _ _ _ Hr) as [H1 [H2 H3]].
      rewrite H3, Hm, Ef. split; [exact H1 | split; [discriminate | exact H2]].
    + destruct (parse_clang_flags_file_again _ _ _ _ Hr) as [H1 [H2 H3]].
      rewrite H3, Hm, Ef. split; [exact H1 | split; [discriminate | exact H2]].
  - intros Hr. destruct (clean_flags_again _ _ _ _ Hr) as [H1 [H2 H3]].
    rewrite H3, Hm. split; [exact H1 | split; [discriminate | exact H2]].
  - rewrite bind_eq, ask_eq. cbv beta iota.
    destruct (walk_up h _ (world st) (cwd ctx) EmptyString) as
      [file | p | p | p |] eqn:Hw; try discriminate.
    + rewrite bind_eq, modify_eq. cbv beta iota. intros Hr.
      destruct (parse_clang_flags_file_again _ _ _ _ Hr) as [H1 [H2 H3]].
      cbn [self user_flags set_user_flags world] in H2, H3.
      rewrite H3, lookup_insert_eq.
      destruct (walk_up_found _ _ _ _ _ Hw) as [Hne _].
      apply String.eqb_neq in Hne. rewrite Hne.
      split; [exact H1 | split; [discriminate | exact H2]].
    + rewrite bind_eq, modify_eq. cbv beta iota. intros Hr.
      destruct (clean_flags_again _ _ _ _ Hr) as [H1 [H2 H3]].
      cbn [self user_flags set_user_flags world] in H2, H3.
      rewrite H3, lookup_insert_eq.
      split; [exact H1 | split; [discriminate | exact H2]].
    + rewrite bind_eq, modify_eq. cbv beta iota. intros Hr.
      destruct (clean_flags_again _ _ _ _ Hr) as [H1 [H2 H3]].
      cbn [self user_flags set_user_flags world] in H2, H3.
      rewrite H3, lookup_insert_eq.
      split; [exact H1 | split; [discriminate | exact H2]].
    + rewrite bind_eq, modify_eq. cbv beta iota. intros Hr.
      destruct (clean_flags_again _ _ _ _ Hr) as [H1 [H2 H3]].
      cbn [self user_flags set_user_flags world] in H2, H3.
      rewrite H3, lookup_insert_eq.
      split; [exact H1 | split; [discriminate | exact H2]].
Qed.

End Memo.

(** witness: the checkout of the scenarios, asked twice *)
Lemma get_user_flags_memoized_witness :
  let ctx := Scenario.with_flags
               (Sim.request "ab" "c" "ab" 0 10 "/proj/sub") ["-Wall"] in
  let st' := snd (get_user_flags (Sim.host Scenario.stubborn) ctx
                    (Sim.start Scenario.repo_world)) in
  get_user_flags (Sim.host Scenario.stubborn) ctx st' = (Ok ["-Wall"], st').
Proof.
  exact (proj1 (get_user_flags_memoized (Sim.host Scenario.stubborn)
                  (Scenario.with_flags
                     (Sim.request "ab" "c" "ab" 0 10 "/proj/sub") ["-Wall"])
                  (Sim.start Scenario.repo_world) _ ["-Wall"] eq_refl)).
Defined.

Section Caches.

Context {W : Type} (h : Host W).

(** the effect of [get_clang_flags] for a compiler that runs and answers
    in text *)
Lemma get_clang_flags_effect (lang : string) (st : St W) :
  let r := get_clang_flags h lang st in
  exists flags,
    fst r = Ok flags
    /\ clang_flags (self (snd r)) !! lang = Some flags
    /\ (forall other, other <> lang ->
          clang_flags (self (snd r)) !! other = clang_flags (self st) !! other)
    /\ length (spawned (snd r)) <= length (spawned st) + 5
    /\ get_clang_flags h lang (snd r) = (Ok flags, snd r).
Proof.
  cbv zeta.
  assert (Hhit : forall s flags,
             clang_flags (self s) !! lang = Some flags ->
             get_clang_flags h lang s = (Ok flags, s)).
  { intros s flags Hs. unfold get_clang_flags.
    rewrite bind_eq, gets_eq. cbv beta iota. now rewrite Hs. }
  destruct (clang_flags (self st) !! lang) as [flags |] eqn:Hc.
  - exists flags. rewrite (Hhit st flags Hc). cbn [fst snd].
    repeat split; try assumption; [lia | now apply Hhit].
  - remember (get_clang_flags h lang st) as r eqn:Er.
    unfold get_clang_flags in Er. rewrite bind_eq, gets_eq in Er.
    cbv beta iota in Er. rewrite Hc, bind_eq in Er.
    set (args := ["-fsyntax-only"; "-x"; lang; "-"; "-v"]) in Er.
    destruct (call_clang_effect h [] args true st)
      as [[l [m Hout]] [[att [Hs [Hl _]]] [_ Hself]]].
    destruct (call_clang h [] args true st) as [[stdout | e] s1];
      cbn [fst snd] in *; [| discriminate Hout].
    rewrite bind_eq, clean_flags_eq in Er. cbn [tokens_of] in Er.
    cbv beta iota in Er. rewrite bind_eq, modify_eq in Er.
    cbv beta iota in Er. rewrite ret_eq in Er.
    set (toks := chain_pairs (scan_default_flags stdout)) in Er.
    set (dv := snd (clean_tokens h toks [] None)) in Er.
    destruct (with_darwin_keeps dv s1) as [_ [Hsp [_ [Hcf _]]]].
    exists (fst (clean_tokens h toks [] None)). subst r.
    cbn [fst snd self spawned set_clang_flags clang_flags].
    split; [reflexivity |].
    split; [apply lookup_insert_eq |].
    split.
    { intros other Hne. rewrite lookup_insert_ne by congruence.
      rewrite Hcf, Hself. reflexivity. }
    split.
    { rewrite Hsp, Hs, length_app. cbn [length]. lia. }
    apply Hhit. cbn [self set_clang_flags clang_flags].
    apply lookup_insert_eq.
Qed.

(** The default flags of a language are computed at most once: a call of
    [get_clang_flags] that returns has run the compiler at most five
    times and has stored the flags it returns under the language, the
    entries of the other languages untouched; a further call returns the
    same flags from the store without running anything. *)
Theorem get_clang_flags_memoized (lang : string) (st st' : St W)
    (flags : list string) :
  get_clang_flags h lang st = (Ok flags, st') ->
  clang_flags (self st') !! lang = Some flags
  /\ (forall other, other <> lang ->
        clang_flags (self st') !! other = clang_flags (self st) !! other)
  /\ length (spawned st') <= length (spawned st) + 5
  /\ get_clang_flags h lang st' = (Ok flags, st').
Proof.
  intros E.
  destruct (get_clang_flags_effect lang st) as [flags0 [Hok H]].
  rewrite E in *. cbn [fst snd] in *. injection Hok as ->. exact H.
Qed.

(** a lookup that raises leaves the plugin as it was *)
Lemma find_db_flags_raise_keeps_state (ctx : Context) (st : St W) (e : exn) :
  fst (find_db_flags h ctx st) = Raise e -> snd (find_db_flags h ctx st) = st.
Proof.
  unfold find_db_flags, find_file. run_m.
  destruct (db_files (self st) !! cwd ctx) as [db |]; [discriminate |].
  run_m. destruct (find_in_tree _ _ _) as [file |]; [| discriminate].
  run_m. destruct (read_text h (world st) file) as [text |]; [| reflexivity].
  destruct (json_load h text) as [records |]; [| reflexivity].
  destruct (db_entries _ records [] ∅) as [es |]; [| reflexivity].
  run_m. discriminate.
Qed.

(** A lookup in the build database that raises, or that finds no database
    file, stores nothing; a lookup never runs a process or changes the
    world. *)
Theorem find_db_flags_failure_not_cached (ctx : Context) (st : St W) :
  let r := find_db_flags h ctx st in
  world (snd r) = world st
  /\ spawned (snd r) = spawned st
  /\ ((exists e, fst r = Raise e) -> snd r = st)
  /\ (db_files (self st) !! cwd ctx = None ->
      find_in_tree (cwd ctx) (walk h (world st) (cwd ctx))
        "compile_commands.json" = None ->
      r = (Ok None, st)).
Proof.
  cbv zeta. unfold find_db_flags, find_file. run_m.
  destruct (db_files (self st) !! cwd ctx) as [db |].
  { run_m. cbn [fst snd]. repeat split; congruence. }
  run_m. destruct (find_in_tree _ _ _) as [file |].
  2: { run_m. cbn [fst snd]. repeat split; congruence. }
  run_m. destruct (read_text h (world st) file) as [text |].
  2: { cbn [fst snd]. repeat split; congruence. }
  destruct (json_load h text) as [records |].
  2: { cbn [fst snd]. repeat split; congruence. }
  destruct (db_entries _ records [] ∅) as [es |].
  2: { cbn [fst snd]. repeat split; congruence. }
  run_m. cbn [fst snd world spawned].
  repeat split; try congruence. intros [e He]. discriminate He.
Qed.

(** A lookup in the build database that returns gives the same answer,
    and changes nothing, when it is repeated; once a database is stored
    for a working directory, the answer for any buffer of that directory
    is read from the stored index alone. *)
Theorem find_db_flags_memoized (ctx : Context) (st st' : St W)
    (res : option (list string)) :
  find_db_flags h ctx st = (Ok res, st') ->
  find_db_flags h ctx st' = (Ok res, st')
  /\ forall db, db_files (self st') !! cwd ctx = Some db ->
       res = entries db
               !! Posixpath.splitext_root
                    (Posixpath.join (cwd ctx) (bufname ctx)).
Proof.
  unfold find_db_flags, find_file. run_m.
  destruct (db_files (self st) !! cwd ctx) as [db |] eqn:Hdb.
  { run_m. intros E. injection E as <- <-. rewrite Hdb.
    split; [reflexivity |]. intros db' E. now injection E as <-. }
  run_m. destruct (find_in_tree _ _ _) as [file |] eqn:Hf.
  2: { run_m. intros E. injection E as <- <-. rewrite Hdb. run_m.
       rewrite Hf. run_m.
       split; [reflexivity |]. discriminate. }
  run_m. destruct (read_text h (world st) file) as [text |]; [| discriminate].
  destruct (json_load h text) as [records |]; [| discriminate].
  destruct (db_entries _ records [] ∅) as [es |]; [| discriminate].
  run_m. intros E. injection E as <- <-.
  cbn [self set_db_files db_files]. rewrite lookup_insert_eq.
  split; [reflexivity |]. intros db E. injection E as <-. reflexivity.
Qed.

End Caches.

(** witness: the database of the scenarios, looked up twice *)
Lemma find_db_flags_memoized_witness :
  let ctx := Sim.request "ab" "c" "ab" 0 10 "/p" in
  let st' := snd (find_db_flags (Sim.host Scenario.accepting) ctx
                    (Sim.start Scenario.db_world)) in
  find_db_flags (Sim.host Scenario.accepting) ctx st' = (Ok None, st').
Proof.
  exact (proj1 (find_db_flags_memoized (Sim.host Scenario.accepting)
                  (Sim.request "ab" "c" "ab" 0 10 "/p")
                  (Sim.start Scenario.db_world) _ None eq_refl)).
Defined.

(** ** The flag file, found *)

Section FlagFileFound.

Context {W : Type} (h : Host W).

Lemma walk_up_finds (w : W) (k fuel : nat) (parent last_parent : string) :
  k < fuel ->
  parent <> last_parent ->
  (forall j, j < k ->
     isfile h w (Posixpath.join (ancestor j parent) ".clang") = false
     /\ (exists ns, listdir h w (ancestor j parent) = Some ns
                    /\ no_repo_dir ns = false)
     /\ ancestor (S j) parent <> ancestor j parent) ->
  isfile h w (Posixpath.join (ancestor k parent) ".clang") = true ->
  walk_up h fuel w parent last_parent
  = FoundFile (Posixpath.join (ancestor k parent) ".clang").
Proof.
  revert fuel parent last_parent.
  induction k as [|k IH]; intros fuel parent last_parent Hf Hne Hpass Hfile.
  - destruct fuel as [|fuel]; [lia |]. cbn [walk_up].
    apply String.eqb_neq in Hne. rewrite Hne.
    change (ancestor 0 parent) with parent in *.
    rewrite Hfile. reflexivity.
  - destruct fuel as [|fuel]; [lia |]. cbn [walk_up].
    apply String.eqb_neq in Hne. rewrite Hne.
    destruct (Hpass 0 ltac:(lia)) as [H0 [[ns [Hns Hm]] Hd]].
    change (ancestor 0 parent) with parent in *.
    change (ancestor 1 parent) with (Posixpath.dirname parent) in *.
    rewrite H0, Hns, Hm.
    rewrite ancestor_succ_r. apply (IH fuel); [lia | exact Hd | |].
    + intros j Hj. destruct (Hpass (S j) ltac:(lia)) as [A [B C]].
      rewrite <- !ancestor_succ_r. tauto.
    + now rewrite <- ancestor_succ_r.
Qed.

(** A [.clang] file in the working directory, or in an ancestor reached
    through directories that each hold a version-control marker and no
    flag file, is found and remembered for the working directory; its
    normalized content is the result, the empty list if it cannot be
    read, and the flags of the host play no part. *)
Theorem get_user_flags_finds_flag_file
    (ctx : Context) (st : St W) (k : nat) :
  let dir j := ancestor j (cwd ctx) in
  let file := Posixpath.join (dir k) ".clang" in
  cwd ctx <> EmptyString ->
  user_flags (self st) !! cwd ctx = None ->
  (forall j, j < k ->
     isfile h (world st) (Posixpath.join (dir j) ".clang") = false
     /\ (exists ns, listdir h (world st) (dir j) = Some ns
                    /\ no_repo_dir ns = false)
     /\ dir (S j) <> dir j) ->
  isfile h (world st) file = true ->
  let st1 := Build_St
               (set_user_flags (<[cwd ctx := Some file]> (user_flags (self st)))
                  (self st))
               (world st) (spawned st) in
  get_user_flags h ctx st = parse_clang_flags_file h file st1
  /\ user_flags (self (snd (get_user_flags h ctx st))) !! cwd ctx
     = Some (Some file)
  /\ match read_text h (world st) file with
     | Some text => get_user_flags h ctx st = clean_flags h (FStr text) st1
     | None => get_user_flags h ctx st = (Ok [], st1)
     end.
Proof.
  intros dir file Hcwd Hmemo Hpass Hfile st1.
  assert (Hwalk : walk_up h (S (S (String.length (cwd ctx)))) (world st)
                    (cwd ctx) EmptyString = FoundFile file).
  { apply (walk_up_finds (world st) k _ (cwd ctx) EmptyString);
      try assumption.
    assert (Hs := ancestors_shrink k (cwd ctx)
                    (fun j Hj => proj2 (proj2 (Hpass j Hj)))).
    lia. }
  assert (E : get_user_flags h ctx st = parse_clang_flags_file h file st1).
  { unfold get_user_flags. rewrite bind_eq, gets_eq. cbv beta iota.
    rewrite Hmemo, bind_eq, ask_eq. cbv beta iota. rewrite Hwalk.
    rewrite bind_eq, modify_eq. reflexivity. }
  split; [exact E |].
  assert (P : parse_clang_flags_file h file st1
              = match read_text h (world st) file with
                | Some text => clean_flags h (FStr text) st1
                | None => (Ok [], st1)
                end).
  { unfold parse_clang_flags_file. rewrite bind_eq, ask_eq. cbv beta iota.
    cbn [world st1]. destruct (read_text h (world st) file); reflexivity. }
  split.
  - rewrite E, P. destruct (read_text h (world st) file) as [text |].
    + rewrite clean_flags_eq.
      destruct (tokens_of h (FStr text)) as [tokens |].
      * cbn [snd].
        destruct (with_darwin_keeps (snd (clean_tokens h tokens [] None)) st1)
          as [_ [_ [Hu _]]].
        rewrite Hu. cbn [st1 self set_user_flags user_flags].
        apply lookup_insert_eq.
      * cbn [snd st1 self set_user_flags user_flags]. apply lookup_insert_eq.
    + cbn [snd st1 self set_user_flags user_flags]. apply lookup_insert_eq.
  - rewrite E, P. destruct (read_text h (world st) file); reflexivity.
Qed.

End FlagFileFound.

(** witness: a request in the root of a checkout with a flag file *)
Lemma get_user_flags_finds_flag_file_witness :
  fst (get_user_flags (Sim.host Scenario.accepting)
         (Scenario.with_flags (Sim.request "ab" "c" "ab" 0 10 "/proj")
            ["-Wall"])
         (Sim.start Scenario.flagged_world))
  = Ok ["-I/home/user/inc"; "-DX=bar"].
Proof.
  pose proof (get_user_flags_finds_flag_file (Sim.host Scenario.accepting)
                (Scenario.with_flags (Sim.request "ab" "c" "ab" 0 10 "/proj")
                   ["-Wall"])
                (Sim.start Scenario.flagged_world) 0
                ltac:(discriminate) eq_refl ltac:(intros j Hj; lia) eq_refl)
    as [E _].
  rewrite E. reflexivity.
Defined.

(** ** The records of a build database *)

Section DatabaseRecords.

(** the key and the directory of a record *)
Definition entry_key (entry : DbEntry) : string :=
  Posixpath.splitext_root
    (match e_file entry with Some f => f | None => EmptyString end).

Definition entry_directory (cwd : string) (entry : DbEntry) : string :=
  match e_directory entry with Some d => d | None => cwd end.

Lemma collect_pairs_In (items flags : list (string * string))
    (f : string * string) :
  In f (collect_pairs flags items) <-> In f flags \/ In f items.
Proof.
  unfold collect_pairs. revert flags.
  induction items as [|g items IH]; intros flags; cbn [fold_left].
  - cbn. tauto.
  - rewrite IH. destruct (append_new_spec flags g) as [[Hin E] | [Hout E]];
      rewrite E.
    + cbn. intuition (subst; tauto).
    + rewrite in_app_iff. cbn. intuition.
Qed.

Lemma db_entries_step (cwd : string) (entry : DbEntry) (rest : list DbEntry)
    (flags : list (string * string)) (es : gmap string (list string)) :
  db_entries cwd (entry :: rest) flags es
  = match e_command entry with
    | None => None
    | Some command =>
        let flags' := scan_command (entry_directory cwd entry) command flags in
        db_entries cwd rest flags'
          (<[entry_key entry := chain_pairs flags']> es)
    end.
Proof. reflexivity. Qed.

(** records of other files leave an entry as it is *)
Lemma db_entries_other_keys (cwd : string) (records : list DbEntry)
    (flags : list (string * string)) (es es' : gmap string (list string))
    (key : string) :
  db_entries cwd records flags es = Some es' ->
  (forall e, In e records -> entry_key e <> key) ->
  es' !! key = es !! key.
Proof.
  revert flags es. induction records as [|entry rest IH]; intros flags es.
  - cbn. intros E _. now injection E as <-.
  - rewrite db_entries_step.
    destruct (e_command entry) as [command |]; [| discriminate].
    cbv zeta. intros E Hk. rewrite (IH _ _ E).
    + apply lookup_insert_ne. apply Hk. now left.
    + intros e He. apply Hk. now right.
Qed.

(** a record without a command makes the load fail as a whole *)
Lemma db_entries_needs_commands (cwd : string) (records : list DbEntry)
    (flags : list (string * string)) (es es' : gmap string (list string)) :
  db_entries cwd records flags es = Some es' ->
  forall e, In e records -> e_command e <> None.
Proof.
  revert flags es. induction records as [|entry rest IH]; intros flags es E e.
  - intros [].
  - rewrite db_entries_step in E.
    destruct (e_command entry) as [command |] eqn:Hc; [| discriminate].
    intros [<- | He]; [congruence | exact (IH _ _ E e He)].
Qed.

(** In an index that loaded, every record has a command, and the entry of
    a file, taken from the last record for it, is a list of flag and
    value tokens that holds every pair of that record's own command, the
    values of all flags but [-D] normalized against the record's
    directory. *)
Theorem db_entries_hold_own_flags
    (cwd : string) (before : list DbEntry) (entry : DbEntry)
    (after : list DbEntry) (command : string)
    (es : gmap string (list string)) :
  db_entries cwd (before ++ entry :: after) [] ∅ = Some es ->
  e_command entry = Some command ->
  (forall e, In e after -> entry_key e <> entry_key entry) ->
  (forall e, In e (before ++ entry :: after) -> e_command e <> None)
  /\ exists pairs,
       es !! entry_key entry = Some (chain_pairs pairs)
       /\ forall item, In item (finditer db_flag_scan command) ->
            In (db_flag_val (entry_directory cwd entry) item) pairs.
Proof.
  intros E Hc Hlast.
  split; [exact (db_entries_needs_commands _ _ _ _ _ E) |].
  revert E. generalize (@nil (string * string)).
  generalize (∅ : gmap string (list string)).
  induction before as [|b before IH]; intros es0 flags E.
  - cbn [app] in E. rewrite db_entries_step, Hc in E. cbv zeta in E.
    exists (scan_command (entry_directory cwd entry) command flags).
    split.
    + rewrite (db_entries_other_keys _ _ _ _ _ _ E Hlast).
      apply lookup_insert_eq.
    + intros item Hitem. unfold scan_command. apply collect_pairs_In.
      right. now apply in_map.
  - cbn [app] in E. rewrite db_entries_step in E.
    destruct (e_command b) as [cb |]; [| discriminate].
    exact (IH _ _ E).
Qed.

End DatabaseRecords.

(** witness: the second record of the database of the scenarios *)
Lemma db_entries_hold_own_flags_witness :
  exists es pairs,
    db_entries "/p" Scenario.two_records [] ∅ = Some es
    /\ es !! "/p/b" = Some (chain_pairs pairs)
    /\ In ("-D", "B=1") pairs.
Proof.
  destruct (db_entries "/p" Scenario.two_records [] ∅) as [es |] eqn:E;
    [| vm_compute in E; discriminate E].
  destruct (db_entries_hold_own_flags "/p"
              [{| e_directory := Some "/p"; e_file := Some "/p/a.c";
                  e_command := Some "cc -I inc_a -c a.c" |}]
              {| e_directory := Some "/p"; e_file := Some "/p/b.c";
                 e_command := Some "cc -DB=1 -c b.c" |}
              [] "cc -DB=1 -c b.c" es E eq_refl
              ltac:(intros e []))
    as [_ [pairs [Hk Hp]]].
  exists es, pairs. split; [reflexivity |]. split; [exact Hk |].
  apply (Hp [(0, "-DB=1"); (2, "B=1"); (1, "-D")]).
  vm_compute. left. reflexivity.
Defined.

(** ** The compiler's output lines *)

Section OutputLines.

(** the lines that announce a completion *)
Definition completion_lines (items : list string) : list string :=
  List.filter (Str.startswith "COMPLETION:") items.

Lemma parse_items_length (items : list string) (pattern : string)
    (completions : list Completion) :
  length (parse_items items pattern completions)
  = length completions
    + (if String.eqb pattern EmptyString then 0 else 1)
    + length (completion_lines items).
Proof.
  unfold completion_lines. revert pattern completions.
  induction items as [|item rest IH]; intros pattern completions;
    cbn [parse_items List.filter].
  - destruct (String.eqb pattern EmptyString);
      [cbn; lia | rewrite length_app; cbn; lia].
  - destruct (Str.startswith "COMPLETION:" item).
    + destruct (Str.startswith "Pattern :" (Str.strip (Str.drop 11 item))) eqn:Ep.
      * rewrite IH.
        assert (Hne : String.eqb (Str.strip (Str.drop 11 item)) EmptyString = false).
        { destruct (Str.strip (Str.drop 11 item)); [discriminate Ep | reflexivity]. }
        rewrite Hne.
        destruct (String.eqb pattern EmptyString);
          [cbn; lia | rewrite length_app; cbn; lia].
      * rewrite IH. cbn [String.eqb].
        destruct (String.eqb pattern EmptyString);
          rewrite ?length_app; cbn; lia.
    + destruct (String.eqb pattern EmptyString) eqn:Ee.
      * rewrite IH, Ee. lia.
      * rewrite IH.
        assert (Hne : String.eqb (pattern +:+ item) EmptyString = false).
        { destruct pattern; [discriminate Ee | reflexivity]. }
        rewrite Hne. lia.
Qed.

(** The loop over the compiler's output yields exactly one completion
    for each line that starts with [COMPLETION:]; lines that do not start
    so, such as trailing diagnostics, add none. *)
Theorem parse_items_one_per_completion_line (items : list string) :
  length (parse_items items EmptyString [])
  = length (List.filter (Str.startswith "COMPLETION:") items)
  /\ forall more,
       List.filter (Str.startswith "COMPLETION:") more = [] ->
       length (parse_items (items ++ more) EmptyString [])
       = length (parse_items items EmptyString []).
Proof.
  split.
  - rewrite parse_items_length. reflexivity.
  - intros more Hmore. rewrite !parse_items_length.
    unfold completion_lines. rewrite List.filter_app, Hmore, app_nil_r.
    reflexivity.
Qed.

End OutputLines.

(** ** Saving the buffer, and the scope cache *)

Section ScopeAndEvents.

Context {W : Type} (h : Host W).

(** the compiler path, run to its end, also records the scope set *)
Lemma complete_with_clang_scope (ctx : Context) (flags src : list string)
    (lang : string) (st : St W) :
  let r := complete_with_clang h ctx flags src lang st in
  (exists e, fst r = Raise e)
  \/ exists cs,
       fst r = Ok cs
       /\ last (self (snd r)) = recorded ctx cs
       /\ (scope_pos ctx = true -> scope_completions (self (snd r)) = cs).
Proof.
  cbv zeta. unfold complete_with_clang. run_m.
  destruct (get_clang_flags h lang st) as [[d | e] s1];
    [| left; eexists; reflexivity].
  run_m. destruct (find_db_flags h ctx s1) as [[db | e] s2];
    [| left; eexists; reflexivity].
  run_m. destruct (generate_pch h ctx _ _ s2) as [[cf | e] s3];
    [| left; eexists; reflexivity].
  run_m. destruct (call_clang h src _ false s3) as [[items | e] s4];
    [| left; eexists; reflexivity].
  right. eexists. run_m.
  destruct (scope_pos ctx); run_m; cbn; repeat split; congruence.
Qed.

Lemma gather_candidates_scope_cases (ctx : Context) (st : St W) :
  let r := gather_candidates h ctx st in
  spawned (snd r) = spawned st
  \/ (exists e, fst r = Raise e)
  \/ exists cs,
       fst r = Ok cs
       /\ last (self (snd r)) = recorded ctx cs
       /\ (scope_pos ctx = true -> scope_completions (self (snd r)) = cs).
Proof.
  cbv zeta. rewrite gather_candidates_eq.
  destruct (too_short ctx); [left; reflexivity |].
  destruct (same_position _ ctx); [left; reflexivity |].
  destruct (scope_hit _ _ ctx); [left; reflexivity |].
  destruct (lang_names (filetype ctx)) as [lang |] eqn:Hlang.
  - right. unfold resolve_and_complete. rewrite Hlang. run_m.
    destruct (get_user_flags h ctx (entered st)) as [[flags | e] s1];
      [| left; eexists; reflexivity].
    run_m.
    destruct (match darwin_version (self s1) with
              | Some version => apply_darwin_flags h version flags
              | None => ret flags
              end s1) as [[flags' | e] s2];
      [| left; eexists; reflexivity].
    run_m. apply complete_with_clang_scope.
  - left. exact (proj1 (resolve_unsupported h ctx (entered st) Hlang)).
Qed.

(** After a request that ran the compiler at a scope position and got a
    non-empty result, a request of the C or C++ family on the same line,
    again at a scope position and not turned away for its length, returns
    that result without running the compiler, whatever its column. *)
Theorem gather_candidates_reuses_scope
    (ctx1 ctx2 : Context) (st : St W) (c : Completion)
    (cs : list Completion) :
  let st1 := snd (gather_candidates h ctx1 st) in
  fst (gather_candidates h ctx1 st) = Ok (c :: cs) ->
  spawned st1 <> spawned st ->
  scope_pos ctx1 = true ->
  line ctx2 = line ctx1 ->
  scope_pos ctx2 = true ->
  too_short ctx2 = false ->
  String.eqb (filetype ctx2) "objc" = false ->
  String.eqb (filetype ctx2) "objcpp" = false ->
  fst (gather_candidates h ctx2 st1) = Ok (c :: cs)
  /\ spawned (snd (gather_candidates h ctx2 st1)) = spawned st1.
Proof.
  intros st1 Hcs Hran Hs1 Hl Hs2 Hshort Ho1 Ho2.
  destruct (gather_candidates_scope_cases ctx1 st)
    as [Hq | [[e He] | [cs' [Hok [Hlast Hscope]]]]].
  - elim Hran. exact Hq.
  - rewrite He in Hcs. discriminate.
  - rewrite Hok in Hcs. injection Hcs as ->. fold st1 in Hlast, Hscope.
    specialize (Hscope Hs1).
    rewrite gather_candidates_eq, Hshort, Hlast, Hscope.
    destruct (same_position (recorded ctx1 (c :: cs)) ctx2);
      [split; reflexivity |].
    assert (Hhit : scope_hit (recorded ctx1 (c :: cs)) (c :: cs) ctx2 = true).
    { unfold scope_hit, same_line, recorded. cbn [last_line last_input].
      rewrite Ho1, Ho2, Hs2, Hl, Z.eqb_refl. reflexivity. }
    rewrite Hhit. split; reflexivity.
Qed.

(** A save event looks the build database up and then empties both
    caches: the next request on a line other than 0 that is not turned
    away for its length resolves its flags anew.  If the lookup raises,
    the event raises and the plugin is left as it was, caches included.
    Any other event changes nothing. *)
Theorem on_event_save_clears_caches (ctx : Context) (st : St W) :
  let r := on_event h ctx st in
  if String.eqb (event ctx) "BufWritePost" then
    ((exists e, fst r = Raise e) /\ snd r = st)
    \/ (fst r = Ok tt
        /\ last (self (snd r)) = None
        /\ scope_completions (self (snd r)) = []
        /\ forall ctx2,
             too_short ctx2 = false -> line ctx2 <> 0%Z ->
             gather_candidates h ctx2 (snd r)
             = resolve_and_complete h ctx2 (entered (snd r)))
  else r = (Ok tt, st).
Proof.
  cbv zeta. unfold on_event.
  destruct (String.eqb (event ctx) "BufWritePost"); [| reflexivity].
  rewrite bind_eq.
  pose proof (find_db_flags_raise_keeps_state h ctx st) as Hfail.
  destruct (find_db_flags h ctx st) as [[res | e] s1]; cbn [fst snd] in *.
  - right. run_m. cbn [fst snd self set_last set_scope_completions last
                         scope_completions].
    repeat split. intros ctx2 Hshort Hline.
    rewrite gather_candidates_eq, Hshort.
    cbn [self set_last set_scope_completions last scope_completions].
    assert (Hp : same_position None ctx2 = false).
    { unfold same_position, same_line.
      destruct (Z.eqb_spec 0 (line ctx2)) as [E | _]; [congruence | reflexivity]. }
    rewrite Hp. unfold scope_hit. rewrite !andb_false_r. reflexivity.
  - left. split; [eexists; reflexivity |]. now apply (Hfail e).
Qed.

End ScopeAndEvents.

(** witness: a request after an opening parenthesis, then one a column
    further on the same line, the start length of the host being 0 *)
Lemma gather_candidates_reuses_scope_witness :
  let h := Sim.host Scenario.verbose in
  let ctx1 := Scenario.eager (Sim.request "foo(" "c" "" 4 10 "/src") in
  let ctx2 := Scenario.eager (Sim.request "foo( " "c" "" 5 10 "/src") in
  let st1 := snd (gather_candidates h ctx1 (Sim.start Scenario.plain_world)) in
  fst (gather_candidates h ctx2 st1) = Ok [Scenario.x_item]
  /\ spawned (snd (gather_candidates h ctx2 st1)) = spawned st1.
Proof.
  exact (gather_candidates_reuses_scope (Sim.host Scenario.verbose)
           (Scenario.eager (Sim.request "foo(" "c" "" 4 10 "/src"))
           (Scenario.eager (Sim.request "foo( " "c" "" 5 10 "/src"))
           (Sim.start Scenario.plain_world) Scenario.x_item []
           eq_refl ltac:(vm_compute; discriminate) eq_refl eq_refl eq_refl
           eq_refl eq_refl eq_refl).
Defined.

(** ** Platform version tokens and SDK flags *)

Section Darwin.

Context {W : Type} (h : Host W).

(** the directory of the SDK of a version, if one of the SDK roots has it *)
Definition sdk_dir (w : W) (version : string * Z) : option string :=
  find (isdir h w)
    (map (fun p => Posixpath.join p ("MacOSX" +:+ fst version +:+ ".sdk"))
         (darwin_sdk_paths h)).

(** [apply_darwin_flags] never raises, runs no compiler and leaves the
    plugin alone.  It returns the given flags, followed by ten SDK flags
    when the SDK is installed; when it is not, the flags come back as
    given, and the download is started only if none is under way. *)
Theorem apply_darwin_flags_extends (version : string * Z)
    (flags : list string) (st : St W) :
  let r := apply_darwin_flags h version flags st in
  self (snd r) = self st
  /\ spawned (snd r) = spawned st
  /\ match sdk_dir (world st) version with
     | Some sdk =>
         world (snd r) = world st
         /\ exists extra,
              fst r = Ok (flags ++ extra) /\ length extra = 10
              /\ In ("-isysroot" +:+ sdk) extra
     | None =>
         fst r = Ok flags
         /\ world (snd r)
            = if download_idle h (world st)
              then start_download h (world st) (fst version)
              else world st
     end.
Proof.
  cbv zeta. unfold apply_darwin_flags, sdk_dir. rewrite bind_eq, ask_eq.
  cbv beta iota.
  destruct (find (isdir h (world st)) _) as [sdk |].
  - rewrite ret_eq. cbn [fst snd].
    split; [reflexivity |]. split; [reflexivity |]. split; [reflexivity |].
    eexists. split; [reflexivity |]. split; [reflexivity |].
    cbn. tauto.
  - rewrite bind_eq, ask_eq. cbv beta iota. rewrite bind_eq.
    destruct (download_idle h (world st)); cbn; tauto.
Qed.

Lemma clean_tokens_app (pre post out : list string)
    (dv : option (option (string * Z))) :
  clean_tokens h (pre ++ post) out dv
  = clean_tokens h post (fst (clean_tokens h pre out dv))
      (snd (clean_tokens h pre out dv)).
Proof.
  revert out dv. induction pre as [|t pre IH]; intros out dv;
    cbn [app clean_tokens]; [reflexivity |].
  destruct (Str.startswith "-darwin=" (expandvars h t)); apply IH.
Qed.

Lemma clean_tokens_no_darwin (flags out : list string)
    (dv : option (option (string * Z))) :
  (forall t, In t flags ->
     Str.startswith "-darwin=" (expandvars h t) = false) ->
  snd (clean_tokens h flags out dv) = dv.
Proof.
  revert out dv. induction flags as [|t flags IH]; intros out dv Hno;
    cbn [clean_tokens]; [reflexivity |].
  rewrite (Hno t (or_introl eq_refl)).
  apply IH. intros u Hu. apply Hno. now right.
Qed.

Lemma startswith_darwin (v : string) :
  Str.startswith "-darwin=" ("-darwin=" +:+ v) = true.
Proof. destruct v; reflexivity. Qed.

Lemma darwin_value (v : string) :
  StrMore.split_first "=" ("-darwin=" +:+ v) = Some ("-darwin", v).
Proof. destruct v; reflexivity. Qed.

(** Among the tokens of [clean_flags], the last one that expands to
    [-darwin=v] decides: afterwards [darwin_version] is what the version
    table gives for [v], nothing when [v] is not in the table, and the
    token is not among the flags returned.  Without such a token the
    plugin is left as it was. *)
Theorem clean_flags_last_darwin_token_decides
    (before : list string) (token v : string) (after : list string)
    (st : St W) :
  expandvars h token = "-darwin=" +:+ v ->
  (forall t, In t after ->
     Str.startswith "-darwin=" (expandvars h t) = false) ->
  clean_flags h (FList (before ++ token :: after)) st
  = (Ok (map (expand_home h) (kept_tokens h (before ++ after))),
     Build_St (set_darwin_version (darwin_versions v) (self st))
       (world st) (spawned st))
  /\ forall plain,
       (forall t, In t plain ->
          Str.startswith "-darwin=" (expandvars h t) = false) ->
       snd (clean_flags h (FList plain) st) = st.
Proof.
  intros Htok Hafter. split.
  - rewrite clean_flags_eq. cbn [tokens_of].
    rewrite clean_tokens_out, app_nil_l.
    assert (Hk : kept_tokens h (before ++ token :: after)
                 = kept_tokens h (before ++ after)).
    { unfold kept_tokens. rewrite !map_app, !List.filter_app.
      cbn [map List.filter]. rewrite Htok, startswith_darwin. reflexivity. }
    rewrite Hk. f_equal.
    rewrite clean_tokens_app. cbn [clean_tokens].
    rewrite Htok, startswith_darwin, darwin_value.
    rewrite (clean_tokens_no_darwin after _ _ Hafter). reflexivity.
  - intros plain Hplain. rewrite clean_flags_eq. cbn [tokens_of snd].
    rewrite (clean_tokens_no_darwin plain _ _ Hplain). reflexivity.
Qed.

End Darwin.

(** witness: two version tokens among other flags *)
Lemma clean_flags_last_darwin_witness :
  darwin_version
    (self (snd (clean_flags (Sim.host Scenario.accepting)
                  (FList ["-darwin=10.9"; "-Wall"; "-darwin=10.2"; "-g"])
                  (Sim.start Scenario.plain_world))))
  = Some ("10.2.8", 1020%Z).
Proof.
  exact (f_equal (fun r => darwin_version (self (snd r)))
           (proj1 (clean_flags_last_darwin_token_decides
                     (Sim.host Scenario.accepting)
                     ["-darwin=10.9"; "-Wall"] "-darwin=10.2" "10.2" ["-g"]
                     (Sim.start Scenario.plain_world) eq_refl
                     ltac:(intros t [<- | []]; reflexivity)))).
Defined.

(** ** The search for the build database *)

Section DatabaseSearch.

(** a directory tree without its directories named in [repo_dirs], at
    every level *)
Fixpoint prune (t : dirtree) : dirtree :=
  match t with
  | Dir name files subdirs =>
      Dir name files
        (List.filter
           (fun d => match d with Dir n _ _ => negb (Str.mem n repo_dirs) end)
           (map prune subdirs))
  end.

(** the height of a directory tree *)
Fixpoint height (t : dirtree) : nat :=
  match t with
  | Dir _ _ subdirs => S (list_max (map height subdirs))
  end.

Lemma find_in_tree_prune_height (n : nat) :
  forall t root filename,
    height t <= n ->
    find_in_tree root (prune t) filename = find_in_tree root t filename.
Proof.
  induction n as [|n IH]; intros [name files subdirs] root filename Hh;
    cbn [height] in Hh; [lia |].
  assert (Hsub : List.Forall (fun sub => height sub <= n) subdirs).
  { apply List.Forall_forall. intros sub Hin.
    assert (Hm : list_max (map height subdirs) <= n) by lia.
    rewrite list_max_le in Hm. rewrite List.Forall_forall in Hm.
    apply Hm. now apply in_map. }
  clear Hh. cbn [prune find_in_tree].
  destruct (Str.mem filename files); [reflexivity |].
  induction subdirs as [|[d fs ss] subdirs IHs]; [reflexivity |].
  inversion Hsub as [| ? ? Hd Hrest]; subst.
  specialize (IHs Hrest).
  pose proof (IH (Dir d fs ss) (Posixpath.join root d) filename Hd) as Hp.
  cbn [map]. cbn [prune] in Hp |- *. cbn [List.filter].
  destruct (Str.mem d repo_dirs) eqn:E; cbn [negb].
  - exact IHs.
  - rewrite E, Hp, IHs. reflexivity.
Qed.

(** [find_file] never looks into a directory called [.git], [.hg] or
    [.svn]: what such directories hold, at any depth, has no influence on
    the file it finds. *)
Theorem find_in_tree_ignores_repo_dirs (t : dirtree) (root filename : string) :
  find_in_tree root (prune t) filename = find_in_tree root t filename.
Proof.
  apply (find_in_tree_prune_height (height t)). lia.
Qed.

End DatabaseSearch.

(** witness: one accepted run *)
Lemma call_clang_bounded_witness :
  let st' := snd (call_clang (Sim.host Scenario.verbose) ["int x;"]
                    ["-x"; "c"] false (Sim.start Scenario.plain_world)) in
  self st' = set_bad_flags (bad_flags (self st')) init_source.
Proof.
  exact (proj2 (proj2 (proj2
           (call_clang_bounded (Sim.host Scenario.verbose) ["int x;"]
              ["-x"; "c"] false (Sim.start Scenario.plain_world)
              (snd (call_clang (Sim.host Scenario.verbose) ["int x;"]
                      ["-x"; "c"] false (Sim.start Scenario.plain_world)))
              ["COMPLETION: x : [#int#]x"]
              ltac:(vm_compute; reflexivity))))).
Defined.

(** witness: the default flags of C on the simulated host *)
Lemma get_clang_flags_memoized_witness :
  let st' := snd (get_clang_flags (Sim.host Scenario.verbose) "c"
                    (Sim.start Scenario.plain_world)) in
  get_clang_flags (Sim.host Scenario.verbose) "c" st'
  = (Ok ["-isystem"; "/usr/include"], st').
Proof.
  exact (proj2 (proj2 (proj2
           (get_clang_flags_memoized (Sim.host Scenario.verbose) "c"
              (Sim.start Scenario.plain_world)
              (snd (get_clang_flags (Sim.host Scenario.verbose) "c"
                      (Sim.start Scenario.plain_world)))
              ["-isystem"; "/usr/include"]
              ltac:(vm_compute; reflexivity))))).
Defined.

(** ** [generate_pch] as a whole *)

Section PrecompiledHeaderWhole.

Context {W : Type} (h : Host W).

(** the state after [generate_pch] has seen to the cache directory *)
Definition prepared (st : St W) : St W :=
  if path_exists h (world st) (pch_cache h) then st
  else Build_St (self st) (makedirs h (world st) (pch_cache h)) (spawned st).

(** the state after the visits of several prefix headers in turn *)
Definition pch_visits (cmd flags pchs : list string) (st : St W) : St W :=
  fold_left (fun s pch => pch_visit h cmd flags pch s) pchs st.

Lemma generate_pch_eq (ctx : Context) (cmd flags : list string) (st : St W) :
  cwd ctx <> EmptyString ->
  generate_pch h ctx cmd flags st
  = match pch_loop h
            (glob h (world (prepared st))
               (Posixpath.join (cwd ctx) "*-Prefix.pch"))
            cmd flags (prepared st) with
    | (Ok c, s) => (Ok (c, flags), s)
    | (Raise e, s) => (Raise e, s)
    end.
Proof.
  intros Hcwd. apply String.eqb_neq in Hcwd.
  unfold generate_pch, prepared. rewrite bind_eq, ask_eq. cbv beta iota.
  rewrite bind_eq.
  destruct (path_exists h (world st) (pch_cache h)).
  - rewrite ret_eq, Hcwd. cbv beta iota.
    rewrite bind_eq, ask_eq. cbv beta iota. rewrite bind_eq.
    destruct (pch_loop h _ cmd flags st) as [[c | e] s]; reflexivity.
  - unfold act at 1. cbv beta iota. rewrite Hcwd.
    rewrite bind_eq, ask_eq. cbv beta iota. rewrite bind_eq.
    destruct (pch_loop h _ cmd flags _) as [[c | e] s]; reflexivity.
Qed.

(** headers whose visits leave no artifact are passed over *)
Lemma pch_loop_skips (before rest cmd flags : list string) (st : St W) :
  (forall b1 p b2, before = b1 ++ p :: b2 ->
     path_exists h (world (pch_visits cmd flags (b1 ++ [p]) st))
       (pch_generated h cmd flags p) = false) ->
  pch_loop h (before ++ rest) cmd flags st
  = pch_loop h rest cmd flags (pch_visits cmd flags before st).
Proof.
  revert st. induction before as [|p before IH]; intros st Hfail;
    [reflexivity |].
  cbn [app]. rewrite pch_loop_step. cbv zeta.
  pose proof (Hfail [] p before eq_refl) as Hp.
  cbn [app pch_visits fold_left] in Hp. rewrite Hp.
  apply IH. intros b1 q b2 E.
  exact (Hfail (p :: b1) q b2 (f_equal (cons p) E)).
Qed.

(** C9. For a prefix header that [generate_pch] reaches, the headers
    before it having left no artifact, the compiler is run, first of all
    on the header-emission command for the artifact that is named after
    the header and the digest of all arguments and the header's path,
    exactly when that artifact is missing or older than the header.  If
    the artifact exists after the visit, [generate_pch] returns [cmd] with
    the include argument for it and [flags] as given, in the state of the
    visit: the remaining headers are not visited; otherwise it goes on
    with the next header.  A call that returns has applied at most one
    artifact. *)
Theorem generate_pch_regenerates_iff_stale
    (ctx : Context) (cmd flags : list string) (st : St W)
    (before : list string) (pch : string) (rest : list string) :
  let artifact p :=
    Posixpath.join (Posixpath.join (tempdir h) "deoplete-clang2")
      (Posixpath.basename p +:+ "."
       +:+ sha1_hexdigest h (String.concat EmptyString (cmd ++ flags ++ [p]))
       +:+ ".h") in
  cwd ctx <> EmptyString ->
  glob h (world (prepared st)) (Posixpath.join (cwd ctx) "*-Prefix.pch")
  = before ++ pch :: rest ->
  (forall b1 p b2, before = b1 ++ p :: b2 ->
     path_exists h (world (pch_visits cmd flags (b1 ++ [p]) (prepared st)))
       (artifact p) = false) ->
  let reached := pch_visits cmd flags before (prepared st) in
  let stale :=
    negb (path_exists h (world reached) (artifact pch))
    || (getmtime h (world reached) (artifact pch)
        <? getmtime h (world reached) pch)%Z in
  let emission :=
    ["-cc1"] ++ cmd ++ flags ++ [pch; "-emit-pch"; "-o"; artifact pch] in
  let visited :=
    if stale then snd (call_clang h [] emission false reached) else reached in
  (if stale
   then exists more,
          spawned visited
          = spawned reached
            ++ ("clang" :: List.filter
                             (fun arg => negb (Str.mem arg (bad_flags (self reached))))
                             emission)
            :: more
          /\ length more <= 4
   else spawned visited = spawned reached)
  /\ (if path_exists h (world visited) (artifact pch)
      then generate_pch h ctx cmd flags st
           = (Ok (cmd ++ ["-include-pch"; artifact pch], flags), visited)
      else generate_pch h ctx cmd flags st
           = match pch_loop h rest cmd flags visited with
             | (Ok c, s) => (Ok (c, flags), s)
             | (Raise e, s) => (Raise e, s)
             end)
  /\ forall cmd' flags' st',
       generate_pch h ctx cmd flags st = (Ok (cmd', flags'), st') ->
       flags' = flags
       /\ (cmd' = cmd
           \/ exists p,
                In p (before ++ pch :: rest)
                /\ path_exists h (world st') (artifact p) = true
                /\ cmd' = cmd ++ ["-include-pch"; artifact p]).
Proof.
  intros artifact Hcwd Hglob Hfail reached stale emission visited.
  assert (Ha : forall p, artifact p = pch_generated h cmd flags p)
    by reflexivity.
  assert (Hv : visited = pch_visit h cmd flags pch reached) by reflexivity.
  split; [| split].
  - subst visited. destruct stale; [| reflexivity].
    destruct (call_clang_effect h [] emission false reached)
      as [_ [[more [Hs [Hl _]]] _]].
    exists more. split; [exact Hs | exact Hl].
  - rewrite (generate_pch_eq ctx cmd flags st Hcwd), Hglob.
    rewrite (pch_loop_skips before (pch :: rest) cmd flags (prepared st) Hfail).
    fold reached. rewrite pch_loop_step. cbv zeta.
    change (pch_visit h cmd flags pch reached) with visited.
    change (pch_generated h cmd flags pch) with (artifact pch).
    destruct (path_exists h (world visited) (artifact pch)); reflexivity.
  - intros cmd' flags' st' E.
    rewrite (generate_pch_eq ctx cmd flags st Hcwd), Hglob in E.
    destruct (pch_loop_at_most_one h (before ++ pch :: rest) cmd flags
                (prepared st)) as [s [Hn | [p [Hp [He Hl]]]]].
    + rewrite Hn in E. injection E as <- <- <-. tauto.
    + rewrite Hl in E. injection E as <- <- <-.
      split; [reflexivity |]. right. exists p. rewrite !Ha. tauto.
Qed.

End PrecompiledHeaderWhole.

(** C9, witness: the project of the scenarios with an artifact older than
    its prefix header *)
Lemma generate_pch_regenerates_witness :
  let h := Sim.host Scenario.verbose in
  let ctx := Sim.request "ab" "c" "ab" 0 10 "/src" in
  let cmd := ["-x"; "c"; "-std=c11"] in
  let r := generate_pch h ctx cmd [] (Sim.start (Scenario.pch_world 1)) in
  fst r = Ok (cmd ++ ["-include-pch"; Scenario.pch_artifact], [])
  /\ length (spawned (snd r)) = 1.
Proof.
  pose proof (generate_pch_regenerates_iff_stale (Sim.host Scenario.verbose)
                (Sim.request "ab" "c" "ab" 0 10 "/src")
                ["-x"; "c"; "-std=c11"] []
                (Sim.start (Scenario.pch_world 1))
                [] Scenario.prefix_header []
                ltac:(discriminate) ltac:(vm_compute; reflexivity)
                ltac:(intros [|? ?] ? ? ?; discriminate)) as [_ [P _]].
  cbv zeta in P |- *.
  match type of P with
  | (if ?c then _ else _) =>
      destruct c eqn:Ec; [| vm_compute in Ec; discriminate Ec]
  end.
  rewrite P. split; [reflexivity | vm_compute; reflexivity].
Defined.
